(** * BMSRegressor: the estimator facade of the Bayesian Machine Scientist

    A shallow embedding of [src/autora/theorist/bms/regressor.py].

    The search engine ([Tree], [Parallel], [utils.run]), the default
    prior/operator tables ([get_priors]) and numpy's float formatting are
    collaborators outside this file of the repository; they enter the
    development through the interface class [Engine].  The scikit-learn
    and pandas helpers the facade calls ([check_array], [check_X_y],
    [check_is_fitted], [pd.DataFrame]) are written out as far as the
    facade depends on them.

    Python dictionaries are mutable objects that several estimators can
    hold at once, so the three registry tables live in an explicit store
    ([heap]) and an estimator holds references to them. *)

From Stdlib Require Import ZArith QArith Qround List String Ascii Lia DecimalString.
From Stdlib Require DecimalNat.
From stdpp Require Import base option list gmap strings.

Local Open Scope string_scope.
Local Open Scope list_scope.
Local Open Scope nat_scope.

(** ** Python values *)

(** A Python float: a finite value, NaN, or an infinity. *)
Inductive pyfloat :=
| Fnum (q : Q)
| Fnan
| Finf (negative : bool).

(** An array cell before validation: a float, or an object that has no
    numeric reading. *)
Inductive cell :=
| Cfloat (x : pyfloat)
| Cobj (s : string).

(** A numpy array: its [shape] tuple and its cells in row-major order. *)
Record ndarray (A : Type) := NDArray { shape : list nat; data : list A }.
Arguments NDArray {A} shape data.
Arguments shape {A} _.
Arguments data {A} _.

(** What a caller can pass for [X] or [y]. *)
Inductive array_like :=
| PyList (a : ndarray cell)
| NumpyArray (a : ndarray cell)
| PandasFrame (labels : list string) (a : ndarray cell).

(** A named function object: [op.__name__], the parameters of
    [signature(op)], and the identity of the object. *)
Record callable := Callable {
  cname : string;
  cparams : list string;
  cident : nat
}.

(** The [root] argument of [fit]: a function object or, since Python does
    not stop it, a string. *)
Inductive root_arg :=
| RootCallable (op : callable)
| RootStr (s : string).

(** ** Exceptions and results *)

Inductive exn :=
| ValidationError   (* ValueError raised by check_array / check_X_y *)
| NotFittedError    (* sklearn.exceptions.NotFittedError *)
| ShapeError        (* ValueError raised by pd.DataFrame *)
| AttributeError
| IndexError
| KeyError
| EngineFailure.    (* anything raised inside the search engine *)

Inductive result (A : Type) :=
| Ok (a : A)
| Raise (e : exn).
Arguments Ok {A} a.
Arguments Raise {A} e.

Definition rbind {A B} (r : result A) (k : A -> result B) : result B :=
  match r with
  | Ok a => k a
  | Raise e => Raise e
  end.

(** ** numpy / pandas / scikit-learn helpers *)

Definition as_array (X : array_like) : ndarray cell :=
  match X with
  | PyList a => a
  | NumpyArray a => a
  | PandasFrame _ a => a
  end.

Definition finite (x : pyfloat) : bool :=
  match x with Fnum _ => true | _ => false end.

Definition to_float (c : cell) : option pyfloat :=
  match c with
  | Cfloat x => Some x
  | Cobj _ => None
  end.

Fixpoint to_floats (cs : list cell) : option (list pyfloat) :=
  match cs with
  | [] => Some []
  | c :: cs' =>
      match to_float c, to_floats cs' with
      | Some x, Some xs => Some (x :: xs)
      | _, _ => None
      end
  end.

(** [check_array(X)] with scikit-learn's defaults: the input must be a 2-D
    array of finite numbers with at least one sample and one feature.
    Every rejection is the validation error.  Cells are floats or
    objects without a numeric reading; Python integers beyond the range
    of a float, which the check lets through and [pd.DataFrame] then
    refuses with an overflow error, are not among them, so no property
    below lists the exceptions of [predict] or [fit] exhaustively. *)
Definition check_array (X : array_like) : result (ndarray pyfloat) :=
  let a := as_array X in
  match shape a with
  | [n_samples; n_features] =>
      match to_floats (data a) with
      | Some xs =>
          if forallb finite xs && (1 <=? n_samples) && (1 <=? n_features)
          then Ok (NDArray [n_samples; n_features] xs)
          else Raise ValidationError
      | None => Raise ValidationError
      end
  | _ => Raise ValidationError
  end.

Definition cell_ok_in_y (c : cell) : bool :=
  match c with
  | Cfloat x => finite x
  | Cobj _ => true
  end.

(** [column_or_1d] followed by the finiteness check of [_check_y]. *)
Definition check_y (y : array_like) : result (ndarray cell) :=
  let a := as_array y in
  let ok n := if forallb cell_ok_in_y (data a)
              then Ok (NDArray [n] (data a)) else Raise ValidationError in
  match shape a with
  | [n] => ok n
  | [n; 1] => ok n
  | _ => Raise ValidationError
  end.

Definition n_rows {A} (a : ndarray A) : nat := nth 0 (shape a) 0.
Definition n_cols {A} (a : ndarray A) : nat := nth 1 (shape a) 0.

(** [check_X_y(X, y)]: [X] as in [check_array], [y] as in [check_y], and
    both of the same length. *)
Definition check_X_y (X y : array_like)
  : result (ndarray pyfloat * ndarray cell) :=
  rbind (check_array X) (fun Xa =>
  rbind (check_y y) (fun ya =>
  if n_rows Xa =? n_rows ya then Ok (Xa, ya) else Raise ValidationError)).

(** A pandas frame as the facade builds it: validated values under column
    labels. *)
Record DataFrame := MkDataFrame {
  columns : list string;
  values : ndarray pyfloat
}.

(** [pd.DataFrame(X, columns=names)] on a 2-D array: pandas refuses a
    label list whose length is not the number of columns. *)
Definition pd_DataFrame (a : ndarray pyfloat) (names : list string)
  : result DataFrame :=
  if n_cols a =? length names then Ok (MkDataFrame names a)
  else Raise ShapeError.

(** [np.expand_dims(col, axis=1)] on a 1-D array. *)
Definition expand_dims_1 (col : list pyfloat) : ndarray pyfloat :=
  NDArray [length col; 1] col.

(** ["%d" % i] *)
Definition str_of_nat (i : nat) : string :=
  NilEmpty.string_of_uint (Nat.to_uint i).

(** [[prefix + "%d" % i for i in range(n)]] *)
Definition numbered (prefix : string) (n : nat) : list string :=
  map (fun i => prefix +:+ str_of_nat i) (seq 0 n).

(** ** The store of registry tables

    Three kinds of dictionary are shared by reference: prior tables
    (name to weight), operator tables (name to arity) and custom-operator
    tables (name to function object).  A reference is an address; the
    store maps the address to the dictionary's present contents.  An
    address nothing was allocated at reads as the empty dictionary. *)

Record heap := Heap {
  prior_tables : gmap nat (gmap string pyfloat);
  op_tables : gmap nat (gmap string nat);
  custom_tables : gmap nat (gmap string callable);
  next_loc : nat
}.

Definition empty_heap : heap := Heap ∅ ∅ ∅ 0.

Definition read_priors (h : heap) (l : nat) : gmap string pyfloat :=
  default ∅ (prior_tables h !! l).
Definition read_ops (h : heap) (l : nat) : gmap string nat :=
  default ∅ (op_tables h !! l).
Definition read_custom (h : heap) (l : nat) : gmap string callable :=
  default ∅ (custom_tables h !! l).

Definition write_priors (l : nat) (d : gmap string pyfloat) (h : heap) : heap :=
  Heap (<[l := d]> (prior_tables h)) (op_tables h) (custom_tables h) (next_loc h).
Definition write_ops (l : nat) (d : gmap string nat) (h : heap) : heap :=
  Heap (prior_tables h) (<[l := d]> (op_tables h)) (custom_tables h) (next_loc h).
Definition write_custom (l : nat) (d : gmap string callable) (h : heap) : heap :=
  Heap (prior_tables h) (op_tables h) (<[l := d]> (custom_tables h)) (next_loc h).

Definition bump (h : heap) : heap :=
  Heap (prior_tables h) (op_tables h) (custom_tables h) (S (next_loc h)).

(** Creating a dictionary object: a fresh address holding [d]. *)
Definition new_priors (d : gmap string pyfloat) (h : heap) : nat * heap :=
  (next_loc h, bump (write_priors (next_loc h) d h)).
Definition new_ops (d : gmap string nat) (h : heap) : nat * heap :=
  (next_loc h, bump (write_ops (next_loc h) d h)).
Definition new_custom (d : gmap string callable) (h : heap) : nat * heap :=
  (next_loc h, bump (write_custom (next_loc h) d h)).

(** ** A state-and-exception monad

    A method runs on a state, returns a value or raises, and leaves the
    state as it was at that point: an exception does not undo the
    assignments made before it. *)

Definition ST (S A : Type) : Type := S -> result A * S.

Definition st_ret {S A} (a : A) : ST S A := fun s => (Ok a, s).
Definition st_bind {S A B} (m : ST S A) (k : A -> ST S B) : ST S B :=
  fun s => match m s with
           | (Ok a, s') => k a s'
           | (Raise e, s') => (Raise e, s')
           end.
Definition st_raise {S A} (e : exn) : ST S A := fun s => (Raise e, s).
Definition st_lift {S A} (r : result A) : ST S A := fun s => (r, s).
Definition st_get {S} : ST S S := fun s => (Ok s, s).
Definition st_modify {S} (f : S -> S) : ST S unit := fun s => (Ok tt, f s).

Notation "x <- m ;; k" := (st_bind m (fun x => k))
  (at level 100, m at next level, right associativity).
Notation "m ;;; k" := (st_bind m (fun _ => k))
  (at level 100, right associativity).

(** [for x in xs: body(x)] *)
Fixpoint st_for {S A} (xs : list A) (body : A -> ST S unit) : ST S unit :=
  match xs with
  | [] => st_ret tt
  | x :: xs' => body x ;;; st_for xs' body
  end.

(** ** The collaborators

    What the facade consumes from the rest of the package and from numpy.
    The arguments of the [Parallel] constructor are collected in
    [session_args]; the three tables are handed over with the contents
    they have when the session is built.  The temperature ladder is
    handed over as a value: [ts] stands for the ladder the estimator was
    given, and what an engine does to the order of the list object it
    receives is outside this interface. *)

Record session_args := SessionArgs {
  arg_Ts : list Q;
  arg_variables : list string;
  arg_parameters : list string;
  arg_x : DataFrame;
  arg_y : ndarray cell;
  arg_prior_par : gmap string pyfloat;
  arg_ops : gmap string nat;
  arg_custom_ops : gmap string callable;
  arg_root : option root_arg;
  arg_random_state : option Z
}.

Class Engine := {
  Tree : Type;
  Parallel : Type;
  (** the two tables [get_priors()] returns *)
  default_priors : gmap string pyfloat;
  default_ops : gmap string nat;
  (** [Tree()] *)
  Tree_new : Tree;
  (** [tree.__repr__()], [tree.latex()] *)
  Tree_repr : Tree -> string;
  Tree_latex : Tree -> string;
  (** [tree.parameters], [tree.par_values] *)
  Tree_parameters : Tree -> list string;
  Tree_par_values : Tree -> gmap string (gmap string pyfloat);
  (** [tree.predict(frame).to_numpy()]; [None] when the engine raises *)
  Tree_predict : Tree -> DataFrame -> option (list pyfloat);
  (** [Parallel(Ts=ts)] and the full constructor call of [fit] *)
  Parallel_new : list Q -> Parallel;
  Parallel_build : session_args -> option Parallel;
  (** [list(pms.trees.values())] *)
  Parallel_trees : Parallel -> list Tree;
  (** [utils.run(pms, epochs)]: the session as the run leaves it, and the
      best tree, its loss and the loss trajectory unless the run raises *)
  utils_run : Parallel -> nat -> Parallel * option (Tree * pyfloat * list pyfloat);
  (** [utils.present_results(model, loss, cache)] *)
  utils_present_results : Tree -> pyfloat -> list pyfloat -> option unit;
  (** [str(np.round(value, decimals=decimals))] *)
  np_round_str : pyfloat -> Z -> string
}.

Definition engine_call {A} (o : option A) : result A :=
  match o with
  | Some a => Ok a
  | None => Raise EngineFailure
  end.

(** ** Python's [str.replace]

    [s.replace(old, new)] replaces the occurrences of [old] found by
    scanning [s] from the left, never reusing a character of one
    occurrence for the next.  With an empty [old], Python puts [new]
    before every character and at the end. *)

Fixpoint starts_with (p s : list ascii) : bool :=
  match p, s with
  | [], _ => true
  | _ :: _, [] => false
  | a :: p', b :: s' => Ascii.eqb a b && starts_with p' s'
  end.

(** [skip] counts the characters of the occurrence just replaced that
    the scan still has to pass over. *)
Fixpoint replace_scan (old new : list ascii) (skip : nat) (s : list ascii)
  : list ascii :=
  match s with
  | [] => []
  | c :: s' =>
      match skip with
      | S k => replace_scan old new k s'
      | O =>
          if starts_with old s
          then new ++ replace_scan old new (length old - 1) s'
          else c :: replace_scan old new 0 s'
      end
  end.

Definition replace_chars (old new s : list ascii) : list ascii :=
  match old with
  | [] => new ++ flat_map (fun c => c :: new) s
  | _ :: _ => replace_scan old new 0 s
  end.

Definition str_replace (s old new : string) : string :=
  string_of_list_ascii
    (replace_chars (list_ascii_of_string old) (list_ascii_of_string new)
                   (list_ascii_of_string s)).

(** ** Module level *)

(** Modelled from the spec: [get_priors], of [autora.theorist.bms.prior],
    which is not in the source tree at hand.  The spec gives its
    interface, "get_priors() -> (prior_table, operator_arity_table)"; each
    call is taken to build its two tables anew, with the contents the
    engine interface supplies. *)
Definition get_priors `{Engine} (h : heap) : (nat * nat) * heap :=
  let '(p, h1) := new_priors default_priors h in
  let '(o, h2) := new_ops default_ops h1 in
  ((p, o), h2).

(** The module's global names. [PRIORS] refers to one dictionary object. *)
Record globals := Globals { PRIORS : nat }.

(** [TEMPERATURES = [1.0] + [1.04**k for k in range(1, 20)]], the powers
    taken exactly. *)
Definition TEMPERATURES : list Q :=
  1%Q :: map (fun k => Qpower (104 # 100) (Z.of_nat k)) (seq 1 19).

(** Importing the module runs [PRIORS, _ = get_priors()]. *)
Definition import_module `{Engine} : globals * heap :=
  let '((p, _), h) := get_priors empty_heap in
  (Globals p, h).

(** ** The estimator *)

Section Estimator.
Context `{E : Engine}.

(** The instance attributes [__init__] assigns.  The three tables are
    references into the store. *)
Record BMSRegressor := MkBMS {
  ts : list Q;
  prior_par : nat;
  epochs : nat;
  pms : Parallel;
  ops : nat;
  custom_ops : nat;
  X_ : option DataFrame;
  y_ : option (ndarray cell);
  model_ : Tree;
  temp_ : Q;
  models_ : list Tree;
  loss_ : pyfloat;
  cache_ : list pyfloat;
  variables : list string
}.

Definition instance_attributes : list string :=
  ["ts"; "prior_par"; "epochs"; "pms"; "ops"; "custom_ops"; "X_"; "y_";
   "model_"; "temp_"; "models_"; "loss_"; "cache_"; "variables"].

(** Attribute assignments [self.attr = v]. *)
Definition set_variables (v : list string) (s : BMSRegressor) : BMSRegressor :=
  MkBMS (ts s) (prior_par s) (epochs s) (pms s) (ops s) (custom_ops s)
        (X_ s) (y_ s) (model_ s) (temp_ s) (models_ s) (loss_ s) (cache_ s) v.
Definition set_pms (p : Parallel) (s : BMSRegressor) : BMSRegressor :=
  MkBMS (ts s) (prior_par s) (epochs s) p (ops s) (custom_ops s)
        (X_ s) (y_ s) (model_ s) (temp_ s) (models_ s) (loss_ s) (cache_ s)
        (variables s).
Definition set_model_ (t : Tree) (s : BMSRegressor) : BMSRegressor :=
  MkBMS (ts s) (prior_par s) (epochs s) (pms s) (ops s) (custom_ops s)
        (X_ s) (y_ s) t (temp_ s) (models_ s) (loss_ s) (cache_ s)
        (variables s).
Definition set_temp_ (t : Q) (s : BMSRegressor) : BMSRegressor :=
  MkBMS (ts s) (prior_par s) (epochs s) (pms s) (ops s) (custom_ops s)
        (X_ s) (y_ s) (model_ s) t (models_ s) (loss_ s) (cache_ s)
        (variables s).
Definition set_run_results (t : Tree) (l : pyfloat) (c : list pyfloat)
    (s : BMSRegressor) : BMSRegressor :=
  MkBMS (ts s) (prior_par s) (epochs s) (pms s) (ops s) (custom_ops s)
        (X_ s) (y_ s) t (temp_ s) (models_ s) l c (variables s).
Definition set_models_ (ms : list Tree) (s : BMSRegressor) : BMSRegressor :=
  MkBMS (ts s) (prior_par s) (epochs s) (pms s) (ops s) (custom_ops s)
        (X_ s) (y_ s) (model_ s) (temp_ s) ms (loss_ s) (cache_ s)
        (variables s).
Definition set_X_y (X : DataFrame) (y : ndarray cell) (s : BMSRegressor)
  : BMSRegressor :=
  MkBMS (ts s) (prior_par s) (epochs s) (pms s) (ops s) (custom_ops s)
        (Some X) (Some y) (model_ s) (temp_ s) (models_ s) (loss_ s)
        (cache_ s) (variables s).

(** [hasattr(self, name)] for the data attributes: an instance has each
    of them from [__init__] on, and nothing deletes one. *)
Definition hasattr (self : BMSRegressor) (name : string) : bool :=
  bool_decide (name ∈ instance_attributes).

(** [check_is_fitted(self, attributes=attrs)]: scikit-learn raises the
    not-fitted error unless the estimator has every listed attribute. *)
Definition check_is_fitted (self : BMSRegressor) (attrs : list string)
  : result unit :=
  if forallb (hasattr self) attrs then Ok tt else Raise NotFittedError.

(** [BMSRegressor(prior_par=PRIORS, ts=TEMPERATURES, epochs=1500)];
    [None] for an argument takes its default. *)
Definition BMSRegressor_init (g : globals) (prior_par_arg : option nat)
    (ts_arg : option (list Q)) (epochs_arg : option nat) (h : heap)
  : BMSRegressor * heap :=
  let ts0 := default TEMPERATURES ts_arg in
  let '((_, o), h1) := get_priors h in
  let '(c, h2) := new_custom ∅ h1 in
  (MkBMS ts0 (default (PRIORS g) prior_par_arg) (default 1500 epochs_arg)
         (Parallel_new ts0) o c None None Tree_new 0%Q [Tree_new]
         (Finf false) [] [],
   h2).

(** [add_primitive(self, op)] *)
Definition add_primitive (self : BMSRegressor) (op : callable) (h : heap)
  : heap :=
  let h1 := write_custom (custom_ops self)
              (<[cname op := op]> (read_custom h (custom_ops self))) h in
  let h2 := write_ops (ops self)
              (<[cname op := length (cparams op)]> (read_ops h1 (ops self))) h1 in
  write_priors (prior_par self)
    (<["Nopi_" +:+ cname op := Fnum 1]> (read_priors h2 (prior_par self))) h2.

(** *** [fit] *)

(** Lines 106-110: the names come from the frame's labels when [X] has
    them; otherwise one name per column is made up, which needs
    [X.shape[1]]. *)
Definition resolve_variables (X : array_like) : result (list string) :=
  match X with
  | PandasFrame labels _ => Ok labels
  | NumpyArray a =>
      match shape a !! 1 with
      | Some n => Ok (numbered "X" n)
      | None => Raise IndexError
      end
  | PyList _ => Raise AttributeError
  end.

Definition modify_self (f : BMSRegressor -> BMSRegressor)
  : ST (BMSRegressor * heap) unit :=
  st_modify (fun st => (f (fst st), snd st)).

Definition call_add_primitive (op : callable) : ST (BMSRegressor * heap) unit :=
  st_modify (fun st => (fst st, add_primitive (fst st) op (snd st))).

(** Lines 118-120 *)
Definition merge_custom_ops (custom_ops_arg : option (list callable))
  : ST (BMSRegressor * heap) unit :=
  match custom_ops_arg with
  | Some l => st_for l call_add_primitive
  | None => st_ret tt
  end.

(** [root not in self.ops.keys()]: the keys are strings, and a function
    object equals no string. *)
Definition root_not_in_ops (root : root_arg) (d : gmap string nat) : bool :=
  match root with
  | RootCallable _ => true
  | RootStr s => bool_decide (d !! s = None)
  end.

(** Lines 121-122; [add_primitive] on a string fails at [op.__name__]. *)
Definition register_root (root : option root_arg)
  : ST (BMSRegressor * heap) unit :=
  match root with
  | None => st_ret tt
  | Some r =>
      st <- st_get ;;
      if root_not_in_ops r (read_ops (snd st) (ops (fst st)))
      then match r with
           | RootCallable op => call_add_primitive op
           | RootStr _ => st_raise AttributeError
           end
      else st_ret tt
  end.

(** Lines 123-134 *)
Definition build_session (Xf : DataFrame) (ys : ndarray cell)
    (num_param : nat) (root : option root_arg) (random_state : option Z)
  : ST (BMSRegressor * heap) unit :=
  st <- st_get ;;
  let self := fst st in
  let h := snd st in
  p <- st_lift (engine_call (Parallel_build
         (SessionArgs (ts self) (variables self) (numbered "a" num_param)
            Xf ys
            (read_priors h (prior_par self))
            (read_ops h (ops self))
            (read_custom h (custom_ops self))
            root random_state))) ;;
  modify_self (set_pms p).

(** Line 135: the run works on the session object [self.pms] holds. *)
Definition run_session : ST (BMSRegressor * heap) (Tree * pyfloat * list pyfloat) :=
  fun st =>
    let '(p, r) := utils_run (pms (fst st)) (epochs (fst st)) in
    (engine_call r, (set_pms p (fst st), snd st)).

Definition fit (X y : array_like) (num_param : nat) (root : option root_arg)
    (custom_ops_arg : option (list callable)) (random_state : option Z)
  : ST (BMSRegressor * heap) unit :=
  vars <- st_lift (resolve_variables X) ;;
  modify_self (set_variables vars) ;;;
  Xy <- st_lift (check_X_y X y) ;;
  st <- st_get ;;
  Xf <- st_lift (pd_DataFrame (fst Xy) (variables (fst st))) ;;
  merge_custom_ops custom_ops_arg ;;;
  register_root root ;;;
  build_session Xf (snd Xy) num_param root random_state ;;;
  best <- run_session ;;
  modify_self (set_run_results (fst (fst best)) (snd (fst best)) (snd best)) ;;;
  modify_self (fun s => set_models_ (Parallel_trees (pms s)) s) ;;;
  modify_self (set_X_y Xf (snd Xy)).

(** *** [predict], [present_results], [repr], [latex]

    The assertions [self.model_ is not None] and the like hold in every
    state: the attributes hold a tree, a float and a list from
    [__init__] on. *)

Definition predict (self : BMSRegressor) (X : array_like)
  : result (ndarray pyfloat) :=
  rbind (check_array X) (fun Xa =>
  rbind (check_is_fitted self ["model_"]) (fun _ =>
  rbind (pd_DataFrame Xa (variables self)) (fun Xf =>
  rbind (engine_call (Tree_predict (model_ self) Xf)) (fun col =>
  Ok (expand_dims_1 col))))).

Definition present_results (self : BMSRegressor) : result unit :=
  rbind (check_is_fitted self ["model_"; "loss_"; "cache_"]) (fun _ =>
  engine_call (utils_present_results (model_ self) (loss_ self) (cache_ self))).

Definition dict_get {V} (d : gmap string V) (k : string) : result V :=
  match d !! k with
  | Some v => Ok v
  | None => Raise KeyError
  end.

(** The loop of lines 186-188. *)
Fixpoint repr_loop (parameter_values : gmap string (gmap string pyfloat))
    (decimals : Z) (names : list string) (model_str : string)
  : result string :=
  match names with
  | [] => Ok model_str
  | name :: rest =>
      rbind (dict_get parameter_values "d0") (fun d0 =>
      rbind (dict_get d0 name) (fun value =>
      repr_loop parameter_values decimals rest
        (str_replace model_str name (np_round_str value decimals))))
  end.

Definition repr (self : BMSRegressor) (decimals : Z) : result string :=
  repr_loop (Tree_par_values (model_ self)) decimals
    (Tree_parameters (model_ self)) (Tree_repr (model_ self)).

Definition latex (self : BMSRegressor) : result string :=
  Ok (Tree_latex (model_ self)).

(** *** [get_models] *)

Variable g : globals.

Definition list_get {A} (l : list A) (i : nat) : result A :=
  match l !! i with
  | Some a => Ok a
  | None => Raise IndexError
  end.

(** Lines 197-201: [self.X_] is a frame after a fit; before one it is
    [None], which has neither [columns] nor [shape]. *)
Definition fitted_columns (self : BMSRegressor) : result (list string) :=
  match X_ self with
  | Some Xf => Ok (columns Xf)
  | None => Raise AttributeError
  end.

Definition new_default_estimator : ST heap BMSRegressor :=
  fun h => let '(b, h') := BMSRegressor_init g None None None h in (Ok b, h').

(** The loop of lines 193-202, from position [idx] on. *)
Fixpoint get_models_loop (self : BMSRegressor) (idx : nat) (trees : list Tree)
  : ST heap (list BMSRegressor) :=
  match trees with
  | [] => st_ret []
  | tree :: rest =>
      b <- new_default_estimator ;;
      t <- st_lift (list_get (ts self) idx) ;;
      vars <- st_lift (fitted_columns self) ;;
      model_list <- get_models_loop self (S idx) rest ;;
      st_ret (set_variables vars (set_temp_ t (set_model_ tree b)) :: model_list)
  end.

Definition get_models (self : BMSRegressor) : ST heap (list BMSRegressor) :=
  get_models_loop self 0 (models_ self).

End Estimator.

(** ** Derived notions used to state the properties *)

(** The store after registering a list of operators in order. *)
Definition registered `{Engine} (self : BMSRegressor) (l : list callable)
    (h : heap) : heap :=
  fold_left (fun h0 op => add_primitive self op h0) l h.

(** The store after the root step of [fit], or the exception it raises. *)
Definition root_registered `{Engine} (self : BMSRegressor)
    (root : option root_arg) (h : heap) : result heap :=
  match root with
  | None => Ok h
  | Some (RootCallable op) => Ok (add_primitive self op h)
  | Some (RootStr s) =>
      if bool_decide (read_ops h (ops self) !! s = None)
      then Raise AttributeError else Ok h
  end.

(** The arguments [fit] builds the session with, for an estimator and a
    store as they are at that moment. *)
Definition session_args_of `{Engine} (self : BMSRegressor) (h : heap)
    (Xf : DataFrame) (ys : ndarray cell) (num_param : nat)
    (root : option root_arg) (random_state : option Z) : session_args :=
  SessionArgs (ts self) (variables self) (numbered "a" num_param) Xf ys
    (read_priors h (prior_par self)) (read_ops h (ops self))
    (read_custom h (custom_ops self)) root random_state.

(** The estimator after the last assignments of a successful [fit]. *)
Definition fit_result `{Engine} (self : BMSRegressor) (p : Parallel)
    (best : Tree * pyfloat * list pyfloat) (Xf : DataFrame)
    (ys : ndarray cell) : BMSRegressor :=
  set_X_y Xf ys
    (set_models_ (Parallel_trees p)
       (set_run_results (fst (fst best)) (snd (fst best)) (snd best)
          (set_pms p self))).

(** [name in s] on Python strings. *)
Fixpoint contains_chars (n s : list ascii) : bool :=
  match s with
  | [] => starts_with n []
  | _ :: s' => starts_with n s || contains_chars n s'
  end.

Definition str_contains (s n : string) : bool :=
  contains_chars (list_ascii_of_string n) (list_ascii_of_string s).

(** A rendering seen as the engine composes it: parameter mentions
    between stretches of other text. *)
Inductive piece :=
| Text (s : string)
| Param (name : string).

Definition piece_text (p : piece) : string :=
  match p with
  | Text s => s
  | Param n => n
  end.

Definition render (ps : list piece) : string :=
  fold_right (fun p acc => piece_text p +:+ acc) "" ps.

Definition mentions (ps : list piece) : list string :=
  flat_map (fun p => match p with Param n => [n] | Text _ => [] end) ps.

Definition texts (ps : list piece) : list string :=
  flat_map (fun p => match p with Text s => [s] | Param _ => [] end) ps.

(** A parameter mention gives way to the text of its fitted value rounded
    to [decimals]; a name without a value stays. *)
Definition substitute_piece `{Engine} (d0 : gmap string pyfloat) (decimals : Z)
    (p : piece) : piece :=
  match p with
  | Text s => Text s
  | Param n =>
      match d0 !! n with
      | Some v => Text (np_round_str v decimals)
      | None => Param n
      end
  end.

(** The rendering with each parameter mention substituted by the text of
    its fitted value: what [repr] is to return according to its
    description. *)
Definition substituted `{Engine} (d0 : gmap string pyfloat) (decimals : Z)
    (ps : list piece) : string :=
  render (map (substitute_piece d0 decimals) ps).

(** The same for the mentions of the names in [l] only. *)
Definition substitute_listed `{Engine} (d0 : gmap string pyfloat) (decimals : Z)
    (l : list string) (p : piece) : piece :=
  match p with
  | Text s => Text s
  | Param n => if decide (n ∈ l) then substitute_piece d0 decimals p else p
  end.

(** Characters of a string. *)
Definition chars (s : string) : list ascii := list_ascii_of_string s.

(** Replacing the mentions of one parameter by a text. *)
Definition substitute_one (n v : string) (p : piece) : piece :=
  match p with
  | Text t => Text t
  | Param m => if decide (m = n) then Text v else Param m
  end.

(** A name wrapped in the delimiter [c]: something non-empty and free of
    [c] between two [c]. *)
Definition delimited (c : ascii) (n : string) : Prop :=
  exists b, chars n = c :: b ++ [c] /\ b ≠ [] /\ (c ∉ b).

(** A character that is in none of the names. *)
Definition foreign (names : list string) (x : ascii) : Prop :=
  forall n, n ∈ names -> x ∉ chars n.

(** Text that cannot be taken for (part of) a delimited name: free of
    the delimiter, and with a character no name has. *)
Definition inert (c : ascii) (names : list string) (t : string) : Prop :=
  (c ∉ chars t) /\ (exists x, x ∈ chars t /\ foreign names x).

(** Pieces whose texts are inert and whose mentions are of listed names. *)
Definition well_delimited (c : ascii) (names : list string) (ps : list piece)
  : Prop :=
  forall p, p ∈ ps ->
    match p with
    | Text t => inert c names t
    | Param m => m ∈ names
    end.

(** Looking for the name [c b c] in a string, one character at a time.
    The state is what has been read since the last [c], if there was one:
    the name is found when a [c] is read in state [b]. *)
Fixpoint finds_delimited (c : ascii) (b : list ascii)
    (st : option (list ascii)) (s : list ascii) : bool :=
  match s with
  | [] => false
  | a :: s' =>
      if Ascii.eqb a c
      then bool_decide (st = Some b) || finds_delimited c b (Some []) s'
      else finds_delimited c b (option_map (fun w => w ++ [a]) st) s'
  end.

(** A state in which reading [s] will not complete the name [c b c]: no
    [c] was read yet, or a character [x] was read since, or what was read
    since, followed by [s], does not begin with [b] and [c]. *)
Definition cannot_complete (c x : ascii) (b : list ascii)
    (st : option (list ascii)) (s : list ascii) : Prop :=
  match st with
  | None => True
  | Some w => x ∈ w \/ forall r, w ++ s ≠ b ++ c :: r
  end.

(** ** A small engine to run the facade on

    Trees render as the sum of their parameters, whose names they carry
    wrapped in underscores, every temperature gets the same tree, a run
    returns the first tree of the population, and a value prints as its
    integral part followed by ".0". *)

Record demo_tree := DemoTree {
  demo_pieces : list piece;
  demo_parameters : list string;
  demo_d0 : gmap string pyfloat
}.

Fixpoint demo_sum (names : list string) : list piece :=
  match names with
  | [] => []
  | [n] => [Param n]
  | n :: rest => Param n :: Text " + " :: demo_sum rest
  end.

Definition demo_values (names : list string) : gmap string pyfloat :=
  list_to_map (zip names (map (fun i => Fnum (inject_Z (Z.of_nat i)))
                              (seq 0 (length names)))).

(** The trees of a session carry the parameter names they were built for
    wrapped in underscores: [_a0_] for [a0]. *)
Definition demo_wrap (names : list string) : list string :=
  map (fun n => "_" +:+ n +:+ "_") names.

Definition demo_fitted_tree (names : list string) : demo_tree :=
  DemoTree (demo_sum (demo_wrap names)) (demo_wrap names)
           (demo_values (demo_wrap names)).

Definition demo_round_str (x : pyfloat) (decimals : Z) : string :=
  match x with
  | Fnum q => NilEmpty.string_of_int (Z.to_int (Qfloor q)) +:+ ".0"
  | Fnan => "nan"
  | Finf false => "inf"
  | Finf true => "-inf"
  end.

#[local] Instance demo_engine : Engine := {|
  Tree := demo_tree;
  Parallel := list demo_tree;
  default_priors := {[ "Nopi_sin" := Fnum 5 ]};
  default_ops := {[ "sin" := 1 ]};
  Tree_new := DemoTree [Text "x"] [] ∅;
  Tree_repr t := render (demo_pieces t);
  Tree_latex t := "$" +:+ render (demo_pieces t) +:+ "$";
  Tree_parameters := demo_parameters;
  Tree_par_values t := {[ "d0" := demo_d0 t ]};
  Tree_predict t Xf := Some (repeat (Fnum 15) (n_rows (values Xf)));
  Parallel_new Ts := map (fun _ => DemoTree [Text "x"] [] ∅) Ts;
  Parallel_build args :=
    Some (map (fun _ => demo_fitted_tree (arg_parameters args)) (arg_Ts args));
  Parallel_trees p := p;
  utils_run p n :=
    (p, match p with
        | t :: _ => Some (t, Fnum 0, repeat (Fnum 0) n)
        | [] => None
        end);
  utils_present_results _ _ _ := Some tt;
  np_round_str := demo_round_str
|}.

(** The module state after import, and a data set of [n] rows in one
    column with a constant target. *)
Definition demo_globals : globals := fst import_module.
Definition demo_heap : heap := snd import_module.

Definition demo_X (n m : nat) : array_like :=
  NumpyArray (NDArray [n; m] (repeat (Cfloat (Fnum 1)) (n * m))).
Definition demo_y (n : nat) : array_like :=
  NumpyArray (NDArray [n] (repeat (Cfloat (Fnum 15)) n)).

Definition demo_state (ts_arg : option (list Q)) : BMSRegressor * heap :=
  BMSRegressor_init demo_globals None ts_arg None demo_heap.

Definition demo_fitted (num_param : nat) : BMSRegressor * heap :=
  snd (fit (demo_X 3 1) (demo_y 3) num_param None None None
         (demo_state (Some [1%Q; 2%Q]))).

(** Two function objects: one whose name is that of a default operator,
    with another arity, and one with a new name. *)
Definition demo_sin : callable := Callable "sin" ["x"; "y"] 7.
Definition demo_f : callable := Callable "f" ["x"] 3.

(** The same engine, except that its sessions always hold a tree for
    temperature 1, first in the population, followed by one tree for each
    other temperature of the ladder: a population of which nothing in
    [fit] or [get_models] checks the length against the ladder. *)
Definition tempering_population (Ts : list Q) : list Q :=
  1%Q :: filter (fun T => negb (Qeq_bool T 1)) Ts.

Definition tempering_engine : Engine := {|
  Tree := demo_tree;
  Parallel := list demo_tree;
  default_priors := {[ "Nopi_sin" := Fnum 5 ]};
  default_ops := {[ "sin" := 1 ]};
  Tree_new := DemoTree [Text "x"] [] ∅;
  Tree_repr t := render (demo_pieces t);
  Tree_latex t := "$" +:+ render (demo_pieces t) +:+ "$";
  Tree_parameters := demo_parameters;
  Tree_par_values t := {[ "d0" := demo_d0 t ]};
  Tree_predict t Xf := Some (repeat (Fnum 15) (n_rows (values Xf)));
  Parallel_new Ts :=
    map (fun _ => DemoTree [Text "x"] [] ∅) (tempering_population Ts);
  Parallel_build args :=
    Some (map (fun _ => demo_fitted_tree (arg_parameters args))
              (tempering_population (arg_Ts args)));
  Parallel_trees p := p;
  utils_run p n :=
    (p, match p with
        | t :: _ => Some (t, Fnum 0, repeat (Fnum 0) n)
        | [] => None
        end);
  utils_present_results _ _ _ := Some tt;
  np_round_str := demo_round_str
|}.

(** * Properties *)

Section Registry.
Context `{E : Engine}.

Lemma read_write_priors l d h : read_priors (write_priors l d h) l = d.
Proof. unfold read_priors, write_priors; simpl. by rewrite lookup_insert_eq. Qed.

Lemma read_write_ops l d h : read_ops (write_ops l d h) l = d.
Proof. unfold read_ops, write_ops; simpl. by rewrite lookup_insert_eq. Qed.

Lemma read_write_custom l d h : read_custom (write_custom l d h) l = d.
Proof. unfold read_custom, write_custom; simpl. by rewrite lookup_insert_eq. Qed.

Lemma read_write_priors_ne l l' d h :
  l ≠ l' -> read_priors (write_priors l d h) l' = read_priors h l'.
Proof. intros. unfold read_priors, write_priors; simpl. by rewrite lookup_insert_ne. Qed.

Lemma read_write_ops_ne l l' d h :
  l ≠ l' -> read_ops (write_ops l d h) l' = read_ops h l'.
Proof. intros. unfold read_ops, write_ops; simpl. by rewrite lookup_insert_ne. Qed.

Lemma read_write_custom_ne l l' d h :
  l ≠ l' -> read_custom (write_custom l d h) l' = read_custom h l'.
Proof. intros. unfold read_custom, write_custom; simpl. by rewrite lookup_insert_ne. Qed.

(** What [add_primitive] leaves in each of the estimator's tables. *)
Lemma add_primitive_ops self op h :
  read_ops (add_primitive self op h) (ops self)
  = <[cname op := length (cparams op)]> (read_ops h (ops self)).
Proof.
  unfold add_primitive, read_ops, write_priors, write_ops, write_custom; simpl.
  by rewrite lookup_insert_eq.
Qed.

Lemma add_primitive_custom self op h :
  read_custom (add_primitive self op h) (custom_ops self)
  = <[cname op := op]> (read_custom h (custom_ops self)).
Proof.
  unfold add_primitive, read_custom, write_priors, write_ops, write_custom; simpl.
  by rewrite lookup_insert_eq.
Qed.

Lemma add_primitive_priors self op h :
  read_priors (add_primitive self op h) (prior_par self)
  = <["Nopi_" +:+ cname op := Fnum 1]> (read_priors h (prior_par self)).
Proof.
  unfold add_primitive, read_priors, write_priors, write_ops, write_custom; simpl.
  by rewrite lookup_insert_eq.
Qed.

(** Dictionaries at other addresses are not written. *)
Lemma add_primitive_ops_frame self op h l :
  l ≠ ops self -> read_ops (add_primitive self op h) l = read_ops h l.
Proof.
  intros. unfold add_primitive, read_ops, write_priors, write_ops, write_custom; simpl.
  by rewrite lookup_insert_ne.
Qed.

Lemma add_primitive_custom_frame self op h l :
  l ≠ custom_ops self -> read_custom (add_primitive self op h) l = read_custom h l.
Proof.
  intros. unfold add_primitive, read_custom, write_priors, write_ops, write_custom; simpl.
  by rewrite lookup_insert_ne.
Qed.

Lemma add_primitive_priors_frame self op h l :
  l ≠ prior_par self -> read_priors (add_primitive self op h) l = read_priors h l.
Proof.
  intros. unfold add_primitive, read_priors, write_priors, write_ops, write_custom; simpl.
  by rewrite lookup_insert_ne.
Qed.

Lemma add_primitive_next_loc self op h :
  next_loc (add_primitive self op h) = next_loc h.
Proof. reflexivity. Qed.

(** C3. [add_primitive] puts name -> arity into the operator table,
    name -> function into the custom-operator table and
    "Nopi_" + name -> 1 into the prior table; every other key of the three
    tables keeps its entry; and after a second registration under the same
    name each table is the original one with the single entry of the later
    registration. *)
Theorem add_primitive_inserts_triple (self : BMSRegressor) (op op2 : callable)
    (h : heap) :
  let name := cname op in
  let h1 := add_primitive self op h in
  let h2 := add_primitive self op2 h1 in
  (read_ops h1 (ops self) !! name = Some (length (cparams op))
   ∧ read_custom h1 (custom_ops self) !! name = Some op
   ∧ read_priors h1 (prior_par self) !! ("Nopi_" +:+ name) = Some (Fnum 1))
  ∧ (forall k, k ≠ name ->
       read_ops h1 (ops self) !! k = read_ops h (ops self) !! k
       ∧ read_custom h1 (custom_ops self) !! k = read_custom h (custom_ops self) !! k)
  ∧ (forall k, k ≠ "Nopi_" +:+ name ->
       read_priors h1 (prior_par self) !! k = read_priors h (prior_par self) !! k)
  ∧ (cname op2 = name ->
       read_ops h2 (ops self)
         = <[name := length (cparams op2)]> (read_ops h (ops self))
       ∧ read_custom h2 (custom_ops self)
         = <[name := op2]> (read_custom h (custom_ops self))
       ∧ read_priors h2 (prior_par self)
         = <["Nopi_" +:+ name := Fnum 1]> (read_priors h (prior_par self))).
Proof.
  intros name h1 h2. subst h1 h2 name.
  repeat split.
  - by rewrite add_primitive_ops, lookup_insert_eq.
  - by rewrite add_primitive_custom, lookup_insert_eq.
  - by rewrite add_primitive_priors, lookup_insert_eq.
  - by rewrite add_primitive_ops, lookup_insert_ne.
  - by rewrite add_primitive_custom, lookup_insert_ne.
  - intros. by rewrite add_primitive_priors, lookup_insert_ne.
  - rewrite !add_primitive_ops, H. apply insert_insert_eq.
  - rewrite !add_primitive_custom, H. apply insert_insert_eq.
  - rewrite !add_primitive_priors, H. apply insert_insert_eq.
Qed.

End Registry.

(** ** Running [fit] *)

Section Fit.
Context `{E : Engine}.

Lemma st_for_add_primitive (l : list callable) (s : BMSRegressor) (h : heap) :
  st_for l call_add_primitive (s, h) = (Ok tt, (s, registered s l h)).
Proof.
  revert h. induction l as [|op l IH]; intros h; [reflexivity|].
  simpl. unfold st_bind at 1. unfold call_add_primitive at 1, st_modify; simpl.
  apply IH.
Qed.

Lemma merge_custom_ops_run cops (s : BMSRegressor) (h : heap) :
  merge_custom_ops cops (s, h) = (Ok tt, (s, registered s (default [] cops) h)).
Proof.
  destruct cops as [l|]; simpl; [apply st_for_add_primitive | reflexivity].
Qed.

Lemma register_root_run root (s : BMSRegressor) (h : heap) :
  register_root root (s, h)
  = match root_registered s root h with
    | Ok h' => (Ok tt, (s, h'))
    | Raise e => (Raise e, (s, h))
    end.
Proof.
  destruct root as [[op|r]|]; simpl; try reflexivity.
  unfold st_bind, st_get; simpl.
  destruct (bool_decide _); reflexivity.
Qed.

(** [fit], step by step. *)
Lemma fit_run X y k root cops rs (s : BMSRegressor) (h : heap) :
  fit X y k root cops rs (s, h) =
  match resolve_variables X with
  | Raise e => (Raise e, (s, h))
  | Ok vars =>
    let s1 := set_variables vars s in
    match check_X_y X y with
    | Raise e => (Raise e, (s1, h))
    | Ok Xy =>
      match pd_DataFrame (fst Xy) vars with
      | Raise e => (Raise e, (s1, h))
      | Ok Xf =>
        let h1 := registered s1 (default [] cops) h in
        match root_registered s1 root h1 with
        | Raise e => (Raise e, (s1, h1))
        | Ok h2 =>
          match Parallel_build (session_args_of s1 h2 Xf (snd Xy) k root rs) with
          | None => (Raise EngineFailure, (s1, h2))
          | Some p =>
            match utils_run p (epochs s1) with
            | (p', None) => (Raise EngineFailure, (set_pms p' s1, h2))
            | (p', Some best) => (Ok tt, (fit_result s1 p' best Xf (snd Xy), h2))
            end
          end
        end
      end
    end
  end.
Proof.
  unfold fit. unfold st_bind at 1, st_lift at 1.
  destruct (resolve_variables X) as [vars|e]; [|reflexivity].
  unfold st_bind at 1. unfold modify_self at 1, st_modify; simpl.
  unfold st_bind at 1, st_lift at 1.
  destruct (check_X_y X y) as [Xy|e]; [|reflexivity].
  unfold st_bind at 1, st_get at 1. simpl.
  unfold st_bind at 1, st_lift at 1.
  destruct (pd_DataFrame (fst Xy) vars) as [Xf|e]; [|reflexivity].
  unfold st_bind at 1. rewrite merge_custom_ops_run.
  unfold st_bind at 1. rewrite register_root_run.
  destruct (root_registered _ root _) as [h2|e]; [|reflexivity].
  unfold st_bind at 1. unfold build_session at 1.
  unfold st_bind at 1, st_get at 1. simpl.
  unfold st_bind at 1, st_lift at 1. fold (session_args_of (set_variables vars s) h2 Xf (snd Xy) k root rs).
  destruct (Parallel_build _) as [p|]; [|reflexivity]. simpl.
  unfold st_bind at 1. unfold run_session at 1. simpl.
  destruct (utils_run p (epochs s)) as [p' [best|]]; reflexivity.
Qed.

End Fit.

(** ** Validation and the fitted-state check *)

Section Checks.
Context `{E : Engine}.

Lemma check_array_raises X e : check_array X = Raise e -> e = ValidationError.
Proof.
  unfold check_array.
  destruct (shape (as_array X)) as [|n [|m [|? ?]]]; try congruence.
  destruct (to_floats _); try congruence.
  destruct (_ && _); congruence.
Qed.

Lemma check_array_Ok X Xa :
  check_array X = Ok Xa ->
  shape Xa = shape (as_array X)
  /\ n_rows Xa = n_rows (as_array X)
  /\ n_cols Xa = n_cols (as_array X)
  /\ 1 <= n_rows Xa /\ 1 <= n_cols Xa.
Proof.
  unfold check_array, n_rows, n_cols.
  destruct (shape (as_array X)) as [|n [|m [|? ?]]]; try congruence.
  destruct (to_floats _); try congruence.
  destruct (_ && _) eqn:Hc; try congruence.
  intros [= <-]. simpl.
  apply andb_prop in Hc as [Hc Hm]. apply andb_prop in Hc as [_ Hn].
  apply Nat.leb_le in Hn, Hm. auto.
Qed.

Lemma check_array_rejects_malformed X :
  length (shape (as_array X)) ≠ 2 \/ to_floats (data (as_array X)) = None ->
  check_array X = Raise ValidationError.
Proof.
  unfold check_array.
  destruct (shape (as_array X)) as [|n [|m [|? ?]]]; simpl;
    intros [Hd|Hn]; try congruence; try reflexivity.
  by rewrite Hn.
Qed.

(** Every instance has the attributes [__init__] assigned, so the check
    passes on each of them. *)
Lemma check_is_fitted_model (self : BMSRegressor) :
  check_is_fitted self ["model_"] = Ok tt.
Proof. reflexivity. Qed.

Lemma check_is_fitted_results (self : BMSRegressor) :
  check_is_fitted self ["model_"; "loss_"; "cache_"] = Ok tt.
Proof. reflexivity. Qed.

Lemma predict_run (self : BMSRegressor) X :
  predict self X =
  match check_array X with
  | Raise e => Raise e
  | Ok Xa =>
      if n_cols Xa =? length (variables self)
      then match Tree_predict (model_ self) (MkDataFrame (variables self) Xa) with
           | Some col => Ok (expand_dims_1 col)
           | None => Raise EngineFailure
           end
      else Raise ShapeError
  end.
Proof.
  unfold predict. destruct (check_array X) as [Xa|e]; simpl; [|reflexivity].
  unfold pd_DataFrame. destruct (_ =? _); simpl; [|reflexivity].
  destruct (Tree_predict _ _); reflexivity.
Qed.

Lemma repr_loop_raises vals d names s e :
  repr_loop vals d names s = Raise e -> e = KeyError.
Proof.
  revert s. induction names as [|n names IH]; intros s; simpl; [congruence|].
  unfold dict_get. destruct (vals !! "d0") as [d0|]; simpl; [|congruence].
  destruct (d0 !! n); simpl; [apply IH | congruence].
Qed.

Lemma get_models_loop_raises g (self : BMSRegressor) idx trees h e h' :
  get_models_loop g self idx trees h = (Raise e, h') ->
  e = IndexError \/ e = AttributeError.
Proof.
  revert idx h. induction trees as [|t trees IH]; intros idx h; simpl.
  - unfold st_ret. congruence.
  - unfold st_bind at 1. unfold new_default_estimator at 1.
    destruct (BMSRegressor_init g None None None h) as [b h1].
    unfold st_bind at 1, st_lift at 1, list_get.
    destruct (ts self !! idx); [|intros [= <- _]; auto].
    unfold st_bind at 1, st_lift at 1, fitted_columns.
    destruct (X_ self); [|intros [= <- _]; auto].
    unfold st_bind at 1.
    destruct (get_models_loop g self (S idx) trees h1) as [[ms|e'] h2] eqn:Hl.
    + unfold st_ret. congruence.
    + intros [= <- <-]. eapply IH, Hl.
Qed.

(** C10. In [predict] the array check comes first: on an input of the
    wrong dimensionality, with non-numeric content, or rejected by the
    array check for any other reason, [predict] raises the validation
    error, whatever the estimator's state. *)
Theorem predict_validates_before_fitted_check (self : BMSRegressor) (X : array_like) :
  length (shape (as_array X)) ≠ 2
  \/ to_floats (data (as_array X)) = None
  \/ (exists e, check_array X = Raise e) ->
  predict self X = Raise ValidationError.
Proof.
  intros H. rewrite predict_run.
  assert (check_array X = Raise ValidationError) as ->; [|reflexivity].
  destruct H as [H|[H|[e H]]].
  - apply check_array_rejects_malformed; auto.
  - apply check_array_rejects_malformed; auto.
  - by rewrite (check_array_raises _ _ H) in H.
Qed.

(** C1. What the five operations do on an estimator no [fit] has touched:
    none of them raises the not-fitted error.  [predict] on a valid input
    fails in [pd.DataFrame], as there are no variable names;
    [present_results] goes on to present the tree, the infinite loss and
    the empty trajectory [__init__] stored; [repr] renders that tree;
    [get_models] fails on [self.X_], which is [None]; [latex] returns the
    tree's LaTeX. *)
Theorem unfit_operations_skip_not_fitted (g : globals) (prior_par_arg : option nat)
    (ts_arg : option (list Q)) (epochs_arg : option nat) (h : heap) :
  let self := fst (BMSRegressor_init g prior_par_arg ts_arg epochs_arg h) in
  (forall X, predict self X ≠ Raise NotFittedError)
  /\ (forall X Xa, check_array X = Ok Xa -> predict self X = Raise ShapeError)
  /\ present_results self
     = engine_call (utils_present_results Tree_new (Finf false) [])
  /\ (forall decimals, repr self decimals ≠ Raise NotFittedError)
  /\ (forall h0, fst (get_models g self h0) ≠ Raise NotFittedError)
  /\ (forall h0, ts self ≠ [] ->
        fst (get_models g self h0) = Raise AttributeError)
  /\ latex self = Ok (Tree_latex Tree_new).
Proof.
  intros self. subst self. unfold BMSRegressor_init.
  destruct (get_priors h) as [[p o] h1]. destruct (new_custom ∅ h1) as [c h2].
  cbn [fst]. repeat split.
  - intros X. rewrite predict_run. destruct (check_array X) as [Xa|e] eqn:HX.
    + destruct (_ =? _); [destruct (Tree_predict _ _)|]; congruence.
    + rewrite (check_array_raises _ _ HX). congruence.
  - intros X Xa HX. rewrite predict_run, HX. cbn [variables length].
    apply check_array_Ok in HX as (_ & _ & _ & _ & Hc).
    destruct (n_cols Xa); [lia|reflexivity].
  - intros d Hr. apply repr_loop_raises in Hr. congruence.
  - intros h0 Hr. unfold get_models in Hr.
    destruct (get_models_loop _ _ _ _ _) as [r h'] eqn:Hl. simpl in Hr. subst r.
    apply get_models_loop_raises in Hl as [?|?]; congruence.
  - intros h0 Hts. unfold get_models. cbn [models_ get_models_loop].
    unfold st_bind at 1. unfold new_default_estimator at 1.
    destruct (BMSRegressor_init g None None None h0) as [b h3].
    unfold st_bind at 1, st_lift at 1, list_get. cbn [ts] in *.
    destruct (default TEMPERATURES ts_arg) as [|t ts']; [done|reflexivity].
Qed.

End Checks.

(** ** The fitted state *)

Section Fitted.
Context `{E : Engine}.

Lemma length_numbered prefix n : length (numbered prefix n) = n.
Proof. unfold numbered. by rewrite length_map, length_seq. Qed.

Lemma pd_DataFrame_Ok a names Xf :
  pd_DataFrame a names = Ok Xf ->
  Xf = MkDataFrame names a /\ n_cols a = length names.
Proof.
  unfold pd_DataFrame. destruct (n_cols a =? length names) eqn:Hc; [|congruence].
  intros [= <-]. apply Nat.eqb_eq in Hc. auto.
Qed.

Lemma check_X_y_Ok X y Xy :
  check_X_y X y = Ok Xy -> check_array X = Ok (fst Xy).
Proof.
  unfold check_X_y. destruct (check_array X) as [Xa|]; simpl; [|congruence].
  destruct (check_y y) as [ya|]; simpl; [|congruence].
  destruct (_ =? _); [|congruence]. by intros [= <-].
Qed.

(** The names a successful [fit] leaves and the frame it retains. *)
Lemma fit_Ok_names X y k root cops rs (self self' : BMSRegressor) (h h' : heap) :
  fit X y k root cops rs (self, h) = (Ok tt, (self', h')) ->
  exists Xa,
    check_array X = Ok Xa
    /\ resolve_variables X = Ok (variables self')
    /\ X_ self' = Some (MkDataFrame (variables self') Xa)
    /\ n_cols Xa = length (variables self')
    /\ models_ self' = Parallel_trees (pms self')
    /\ ts self' = ts self.
Proof.
  rewrite fit_run.
  destruct (resolve_variables X) as [vars|] eqn:Hv; [|congruence]. cbv zeta.
  destruct (check_X_y X y) as [Xy|] eqn:HXy; [|congruence].
  destruct (pd_DataFrame (fst Xy) vars) as [Xf|] eqn:HXf; [|congruence].
  destruct (root_registered _ _ _) as [h2|]; [|congruence].
  destruct (Parallel_build _) as [p|]; [|congruence].
  destruct (utils_run p _) as [p' [best|]]; [|congruence].
  intros [= <- <-]. apply pd_DataFrame_Ok in HXf as [-> Hc].
  exists (fst Xy). split; [by eapply check_X_y_Ok|]. by repeat split.
Qed.

Lemma resolve_variables_Ok X Xa vars :
  check_array X = Ok Xa -> resolve_variables X = Ok vars ->
  vars = match X with
         | PandasFrame labels _ => labels
         | _ => numbered "X" (n_cols Xa)
         end.
Proof.
  intros HX. pose proof (check_array_Ok _ _ HX) as (Hs & _ & Hc & _).
  destruct X as [a|a|labels a]; simpl; try congruence.
  simpl in Hc. rewrite Hc. unfold n_cols.
  unfold check_array in HX. simpl in HX.
  destruct (shape a) as [|n [|m [|? ?]]]; try congruence. simpl.
  congruence.
Qed.

(** The loop of [get_models] on a fitted estimator. *)
Lemma get_models_loop_Ok g (self : BMSRegressor) Xf trees : forall idx h,
  X_ self = Some Xf ->
  idx + length trees <= length (ts self) ->
  exists ms h',
    get_models_loop g self idx trees h = (Ok ms, h')
    /\ length ms = length trees
    /\ forall i m, ms !! i = Some m ->
         trees !! i = Some (model_ m)
         /\ ts self !! (idx + i) = Some (temp_ m)
         /\ variables m = columns Xf.
Proof.
  induction trees as [|tree trees IH]; intros idx h HX Hlen.
  - exists [], h. split; [reflexivity|]. split; [reflexivity|].
    intros i m Hi. by rewrite lookup_nil in Hi.
  - simpl in Hlen. simpl.
    unfold st_bind at 1. unfold new_default_estimator at 1.
    destruct (BMSRegressor_init g None None None h) as [b h1].
    unfold st_bind at 1, st_lift at 1, list_get.
    destruct (ts self !! idx) as [t|] eqn:Ht;
      [|apply lookup_ge_None in Ht; lia].
    unfold st_bind at 1, st_lift at 1, fitted_columns. rewrite HX.
    unfold st_bind at 1.
    destruct (IH (S idx) h1 HX ltac:(lia)) as (ms & h2 & -> & Hl & Hms).
    eexists _, h2. split; [reflexivity|]. split; [simpl; lia|].
    intros [|i] m Hi; simpl in Hi.
    + injection Hi as <-. simpl. by rewrite Nat.add_0_r.
    + apply Hms in Hi as (? & ? & ?). simpl.
      by replace (idx + S i) with (S idx + i) by lia.
Qed.

Lemma get_models_loop_IndexError g (self : BMSRegressor) Xf trees :
  forall idx h,
  X_ self = Some Xf ->
  idx <= length (ts self) ->
  length (ts self) < idx + length trees ->
  fst (get_models_loop g self idx trees h) = Raise IndexError.
Proof.
  induction trees as [|tree trees IH]; intros idx h HX Hidx Hlen; simpl in *.
  - lia.
  - unfold st_bind at 1. unfold new_default_estimator at 1.
    destruct (BMSRegressor_init g None None None h) as [b h1].
    unfold st_bind at 1, st_lift at 1, list_get.
    destruct (ts self !! idx) as [t|] eqn:Ht; [|reflexivity].
    unfold st_bind at 1, st_lift at 1, fitted_columns. rewrite HX.
    unfold st_bind at 1.
    apply lookup_lt_Some in Ht.
    specialize (IH (S idx) h1 HX ltac:(lia) ltac:(lia)).
    destruct (get_models_loop g self (S idx) trees h1) as [[ms|e] h2];
      simpl in IH; [congruence|]. simpl. congruence.
Qed.

Lemma get_models_loop_names g (self : BMSRegressor) trees : forall idx h ms h',
  get_models_loop g self idx trees h = (Ok ms, h') ->
  forall m, m ∈ ms -> fitted_columns self = Ok (variables m).
Proof.
  induction trees as [|tree trees IH]; intros idx h ms h'; simpl.
  - unfold st_ret. intros [= <- _] m Hm. by apply elem_of_nil in Hm.
  - unfold st_bind at 1. unfold new_default_estimator at 1.
    destruct (BMSRegressor_init g None None None h) as [b h1].
    unfold st_bind at 1, st_lift at 1.
    destruct (list_get _ _) as [t|]; [|congruence].
    unfold st_bind at 1, st_lift at 1.
    destruct (fitted_columns self) as [vars|] eqn:Hc; [|congruence].
    unfold st_bind at 1.
    destruct (get_models_loop g self (S idx) trees h1) as [[ms'|] h2] eqn:Hl;
      [|congruence].
    unfold st_ret. intros [= <- _] m Hm.
    apply elem_of_cons in Hm as [->|Hm]; [by rewrite ?Hc|].
    rewrite ?Hc. eapply IH; eauto.
Qed.

(** C2. After a successful [fit] on an input with [n] feature columns the
    stored names are [n] in number: the frame's labels in their order
    when [X] has labels, [X0 .. X(n-1)] otherwise.  [predict] labels its
    input with that sequence; the names [get_models] reads off the
    retained frame are that sequence, every facade it returns carries
    it, and whenever the population is no longer than the ladder it does
    return one facade per tree of the population. *)
Theorem fit_variable_names_reused (g : globals) X y k root cops rs
    (self self' : BMSRegressor) (h h' : heap) :
  fit X y k root cops rs (self, h) = (Ok tt, (self', h')) ->
  let n := n_cols (as_array X) in
  length (variables self') = n
  /\ variables self' = match X with
                       | PandasFrame labels _ => labels
                       | _ => numbered "X" n
                       end
  /\ (forall X' Xa', check_array X' = Ok Xa' ->
        predict self' X'
        = rbind (pd_DataFrame Xa' (variables self')) (fun Xf =>
          rbind (engine_call (Tree_predict (model_ self') Xf)) (fun col =>
          Ok (expand_dims_1 col))))
  /\ fitted_columns self' = Ok (variables self')
  /\ (forall h0 ms h1, get_models g self' h0 = (Ok ms, h1) ->
        forall m, m ∈ ms -> variables m = variables self')
  /\ (length (models_ self') <= length (ts self') ->
        forall h0, exists ms h1,
          get_models g self' h0 = (Ok ms, h1)
          /\ length ms = length (models_ self')
          /\ forall m, m ∈ ms -> variables m = variables self').
Proof.
  intros Hfit n. subst n.
  destruct (fit_Ok_names _ _ _ _ _ _ _ _ _ _ Hfit)
    as (Xa & HX & Hv & HX_ & Hn & _).
  pose proof (check_array_Ok _ _ HX) as (_ & _ & Hc & _).
  rewrite <- Hc. repeat split.
  - by rewrite Hn.
  - by apply resolve_variables_Ok.
  - intros X' Xa' HX'. unfold predict. rewrite HX'. reflexivity.
  - unfold fitted_columns. by rewrite HX_.
  - intros h0 ms h1 Hg m Hm.
    eapply get_models_loop_names in Hg; [|exact Hm].
    unfold fitted_columns in Hg. rewrite HX_ in Hg. simpl in Hg. congruence.
  - intros Hlen h0.
    destruct (get_models_loop_Ok g self' _ (models_ self') 0 h0 HX_
                ltac:(simpl; lia)) as (ms & h1 & Hg & Hl & Hi).
    exists ms, h1. split; [exact Hg|]. split; [exact Hl|].
    intros m Hm. apply list_elem_of_lookup in Hm as [i Hm].
    by destruct (Hi i m Hm) as (_ & _ & ->).
Qed.


(** X23. On an estimator a [fit] has just succeeded on, whose session holds
    one tree per temperature, [get_models] returns one facade per tree of
    the population, as many as there are temperatures; the facade at
    position [i] carries the tree at [i], the temperature at [i] of the
    ladder, and the variable names of the fit. *)
Theorem get_models_one_per_temperature (g : globals) X y k root cops rs
    (self0 self : BMSRegressor) (h0 h1 h : heap) :
  fit X y k root cops rs (self0, h0) = (Ok tt, (self, h1)) ->
  length (Parallel_trees (pms self)) = length (ts self) ->
  exists ms h',
    get_models g self h = (Ok ms, h')
    /\ length ms = length (models_ self)
    /\ length ms = length (ts self)
    /\ forall i m, ms !! i = Some m ->
         models_ self !! i = Some (model_ m)
         /\ ts self !! i = Some (temp_ m)
         /\ variables m = variables self.
Proof.
  intros Hfit Hlen.
  destruct (fit_Ok_names _ _ _ _ _ _ _ _ _ _ Hfit)
    as (Xa & _ & _ & HX_ & _ & Hms & _).
  rewrite <- Hms in Hlen.
  destruct (get_models_loop_Ok g self _ (models_ self) 0 h HX_ ltac:(simpl; lia))
    as (ms & h' & Hg & Hl & Hi).
  exists ms, h'. unfold get_models. repeat split; try congruence.
  all: intros; edestruct Hi as (? & ? & ?); eauto.
Qed.

(** C6. A successful [fit] does not make the population as long as the
    ladder: [models_] is whatever the session holds.  When the session
    holds more trees than the ladder has temperatures, [get_models] fails
    with an index error at the first tree beyond the ladder, and returns
    no facade at all. *)
Theorem get_models_fails_beyond_ladder (g : globals) X y k root cops rs
    (self0 self : BMSRegressor) (h0 h1 : heap) :
  fit X y k root cops rs (self0, h0) = (Ok tt, (self, h1)) ->
  length (ts self) < length (Parallel_trees (pms self)) ->
  models_ self = Parallel_trees (pms self)
  /\ forall h, fst (get_models g self h) = Raise IndexError.
Proof.
  intros Hfit Hlen.
  destruct (fit_Ok_names _ _ _ _ _ _ _ _ _ _ Hfit)
    as (Xa & _ & _ & HX_ & _ & Hms & _).
  split; [exact Hms|]. intros h. unfold get_models.
  apply (get_models_loop_IndexError g self _ (models_ self) 0 h HX_);
    [lia|rewrite Hms; simpl; lia].
Qed.

(** C4, as amended. When [fit] raises, the best model, its loss, the
    loss trajectory, the population, and the retained [X] and [y] are as
    before the call.  The variable names are as before only if the call
    failed while reading the names off [X]; otherwise they are the names
    of the new [X]. *)
Theorem failed_fit_keeps_results X y k root cops rs
    (self self' : BMSRegressor) (h h' : heap) (e : exn) :
  fit X y k root cops rs (self, h) = (Raise e, (self', h')) ->
  model_ self' = model_ self
  /\ loss_ self' = loss_ self
  /\ cache_ self' = cache_ self
  /\ models_ self' = models_ self
  /\ X_ self' = X_ self
  /\ y_ self' = y_ self
  /\ match resolve_variables X with
     | Ok vars => variables self' = vars
     | Raise _ => variables self' = variables self
     end.
Proof.
  rewrite fit_run.
  destruct (resolve_variables X) as [vars|]; [|by intros [= _ <- _]].
  cbv zeta.
  destruct (check_X_y X y) as [Xy|]; [|by intros [= _ <- _]].
  destruct (pd_DataFrame _ _) as [Xf|]; [|by intros [= _ <- _]].
  destruct (root_registered _ _ _) as [h2|]; [|by intros [= _ <- _]].
  destruct (Parallel_build _) as [p|]; [|by intros [= _ <- _]].
  destruct (utils_run p _) as [p' [best|]]; [congruence|by intros [= _ <- _]].
Qed.

End Fitted.

(** ** Registration during [fit], and who holds the tables *)

Section Sharing.
Context `{E : Engine}.

(** With a function object as [root], the test of line 121 compares that
    object with the table's keys, which are strings; it never finds it,
    so the root is registered whether or not its name is known. *)
Lemma callable_root_registered_always (self : BMSRegressor) (op : callable) (h : heap) :
  register_root (Some (RootCallable op)) (self, h)
  = (Ok tt, (self, add_primitive self op h)).
Proof. by rewrite register_root_run. Qed.

(** The session of a successful [fit] is built on the tables as they are
    after the custom operators and then the root have been registered. *)
Lemma fit_builds_session_after_registration X y k root cops rs
    (self self' : BMSRegressor) (h h' : heap) :
  fit X y k root cops rs (self, h) = (Ok tt, (self', h')) ->
  exists vars (Xy : ndarray pyfloat * ndarray cell) Xf p,
    let s1 := set_variables vars self in
    root_registered s1 root (registered s1 (default [] cops) h) = Ok h'
    /\ Parallel_build (session_args_of s1 h' Xf (snd Xy) k root rs) = Some p.
Proof.
  rewrite fit_run.
  destruct (resolve_variables X) as [vars|]; [|congruence]. cbv zeta.
  destruct (check_X_y X y) as [Xy|]; [|congruence].
  destruct (pd_DataFrame _ _) as [Xf|]; [|congruence].
  destruct (root_registered _ _ _) as [h2|] eqn:Hr; [|congruence].
  destruct (Parallel_build _) as [p|] eqn:Hp; [|congruence].
  destruct (utils_run p _) as [p' [best|]]; [|congruence].
  intros [= _ <-]. by exists vars, Xy, Xf, p.
Qed.

(** Two estimators built with the default arguments hold the same prior
    table, [PRIORS], and separate operator and custom-operator tables. *)
Lemma default_estimators_tables (g : globals) (h : heap) :
  let r1 := BMSRegressor_init g None None None h in
  let r2 := BMSRegressor_init g None None None (snd r1) in
  prior_par (fst r1) = PRIORS g
  /\ prior_par (fst r2) = PRIORS g
  /\ ops (fst r1) ≠ ops (fst r2)
  /\ custom_ops (fst r1) ≠ custom_ops (fst r2).
Proof.
  unfold BMSRegressor_init, get_priors, new_priors, new_ops, new_custom; simpl.
  repeat split; lia.
Qed.

End Sharing.

(** ** The facade on the small engine *)

Section Runs.

(** C7. A root whose name is already an operator is registered again: a
    fresh estimator knows [sin] with arity 1 and prior weight 5; after
    [fit] with a function named [sin] of two parameters as root, the
    operator table gives arity 2, the prior weight is 1, and the function
    is in the custom-operator table. *)
Theorem fit_registers_known_root_again :
  let st := demo_state (Some [1%Q; 2%Q]) in
  let r := fit (demo_X 3 1) (demo_y 3) 1 (Some (RootCallable demo_sin))
             None None st in
  let self := fst st in
  (read_ops (snd st) (ops self) !! "sin" = Some 1
   /\ read_priors (snd st) (prior_par self) !! "Nopi_sin" = Some (Fnum 5)
   /\ read_custom (snd st) (custom_ops self) !! "sin" = None)
  /\ fst r = Ok tt
  /\ read_ops (snd (snd r)) (ops self) !! "sin" = Some 2
  /\ read_priors (snd (snd r)) (prior_par self) !! "Nopi_sin" = Some (Fnum 1)
  /\ read_custom (snd (snd r)) (custom_ops self) !! "sin" = Some demo_sin.
Proof. vm_compute. repeat split; reflexivity. Qed.

(** C8. Two estimators built one after the other with the default
    arguments: registering [f] on the first puts the prior entry of [f]
    into the prior table of the second, which did not have it; the
    second's operator and custom-operator tables stay as they were. *)
Theorem add_primitive_reaches_other_estimator :
  let r1 := BMSRegressor_init demo_globals None None None demo_heap in
  let r2 := BMSRegressor_init demo_globals None None None (snd r1) in
  let first := fst r1 in
  let second := fst r2 in
  let h := add_primitive first demo_f (snd r2) in
  read_priors (snd r2) (prior_par second) !! "Nopi_f" = None
  /\ read_priors h (prior_par second) !! "Nopi_f" = Some (Fnum 1)
  /\ read_ops h (ops second) = read_ops (snd r2) (ops second)
  /\ read_custom h (custom_ops second) = read_custom (snd r2) (custom_ops second).
Proof. vm_compute. repeat split; reflexivity. Qed.

(** C4, the claim as first stated fails: on a fitted estimator with the
    one name [X0], a [fit] that is refused for its mismatched row counts
    leaves the names [X0], [X1] of the new input behind. *)
Lemma failed_fit_overwrites_variables :
  let st := demo_fitted 2 in
  let r := fit (demo_X 3 2) (demo_y 4) 1 None None None st in
  X_ (fst st) ≠ None
  /\ variables (fst st) = ["X0"]
  /\ fst r = Raise ValidationError
  /\ variables (fst (snd r)) = ["X0"; "X1"]
  /\ variables (fst (snd r)) ≠ variables (fst st).
Proof. vm_compute. repeat split; congruence. Qed.

(** The same refused [fit], read through the amended statement. *)
Lemma failed_fit_keeps_results_witness :
  let st := demo_fitted 2 in
  let r := fit (demo_X 3 2) (demo_y 4) 1 None None None
             (fst st, snd st) in
  model_ (fst (snd r)) = model_ (fst st)
  /\ loss_ (fst (snd r)) = loss_ (fst st)
  /\ cache_ (fst (snd r)) = cache_ (fst st)
  /\ models_ (fst (snd r)) = models_ (fst st)
  /\ X_ (fst (snd r)) = X_ (fst st)
  /\ y_ (fst (snd r)) = y_ (fst st)
  /\ variables (fst (snd r)) = ["X0"; "X1"].
Proof.
  intros st r.
  apply (failed_fit_keeps_results (demo_X 3 2) (demo_y 4) 1 None None None
           (fst st) (fst (snd r)) (snd st) (snd (snd r)) ValidationError).
  vm_compute. reflexivity.
Defined.

(** A one-dimensional input on an estimator never fitted. *)
Lemma predict_validates_before_fitted_check_witness :
  predict (fst (demo_state None)) (NumpyArray (NDArray [2] [Cfloat (Fnum 1); Cfloat (Fnum 2)]))
  = Raise ValidationError.
Proof.
  apply predict_validates_before_fitted_check. left. simpl. lia.
Defined.

(** A fit on three rows of one unlabelled column, under two
    temperatures: [get_models] returns two facades, each with the name
    [X0]. *)
Lemma fit_variable_names_reused_witness :
  let st := demo_state (Some [1%Q; 2%Q]) in
  let self' := fst (demo_fitted 2) in
  length (variables self') = 1
  /\ variables self' = numbered "X" 1
  /\ (forall X' Xa', check_array X' = Ok Xa' ->
        predict self' X'
        = rbind (pd_DataFrame Xa' (variables self')) (fun Xf =>
          rbind (engine_call (Tree_predict (model_ self') Xf)) (fun col =>
          Ok (expand_dims_1 col))))
  /\ fitted_columns self' = Ok (variables self')
  /\ (forall h0 ms h1, get_models demo_globals self' h0 = (Ok ms, h1) ->
        forall m, m ∈ ms -> variables m = variables self')
  /\ length (models_ self') = 2
  /\ forall h0, exists ms h1,
       get_models demo_globals self' h0 = (Ok ms, h1)
       /\ length ms = length (models_ self')
       /\ forall m, m ∈ ms -> variables m = variables self'.
Proof.
  intros st self'.
  destruct (fit_variable_names_reused demo_globals (demo_X 3 1) (demo_y 3) 2
              None None None (fst st) self' (snd st) (snd (demo_fitted 2)))
    as (H1 & H2 & H3 & H4 & H5 & H6).
  { vm_compute. reflexivity. }
  split; [exact H1|]. split; [exact H2|]. split; [exact H3|].
  split; [exact H4|]. split; [exact H5|]. split; [reflexivity|].
  apply H6. vm_compute. lia.
Defined.


(** Two temperatures, two facades. *)
Lemma get_models_one_per_temperature_witness :
  let st := demo_state (Some [1%Q; 2%Q]) in
  let self := fst (demo_fitted 2) in
  exists ms h',
    get_models demo_globals self demo_heap = (Ok ms, h')
    /\ length ms = length (models_ self)
    /\ length ms = length (ts self)
    /\ forall i m, ms !! i = Some m ->
         models_ self !! i = Some (model_ m)
         /\ ts self !! i = Some (temp_ m)
         /\ variables m = variables self.
Proof.
  intros st self.
  apply (get_models_one_per_temperature demo_globals (demo_X 3 1) (demo_y 3) 2
           None None None (fst st) self (snd st) (snd (demo_fitted 2)) demo_heap);
    vm_compute; reflexivity.
Defined.

(** A ladder without the temperature 1, on an engine whose sessions
    always hold a tree for temperature 1: [fit] succeeds and stores three
    trees for the two temperatures, and [get_models] fails with an index
    error, at [self.ts[2]]. *)
Lemma get_models_fails_beyond_ladder_witness :
  let g := fst (@import_module tempering_engine) in
  let st := @BMSRegressor_init tempering_engine g None (Some [2%Q; 3%Q]) None
              (snd (@import_module tempering_engine)) in
  let r := @fit tempering_engine (demo_X 3 1) (demo_y 3) 1 None None None
             (fst st, snd st) in
  let self := fst (snd r) in
  fst r = Ok tt
  /\ ts self = [2%Q; 3%Q]
  /\ length (models_ self) = 3
  /\ models_ self = @Parallel_trees tempering_engine (pms self)
  /\ forall h, fst (@get_models tempering_engine g self h) = Raise IndexError.
Proof.
  intros g st r self.
  split; [vm_compute; reflexivity|].
  split; [vm_compute; reflexivity|].
  split; [vm_compute; reflexivity|].
  apply (@get_models_fails_beyond_ladder tempering_engine g (demo_X 3 1)
           (demo_y 3) 1 None None None (fst st) self (snd st) (snd (snd r))).
  - vm_compute. reflexivity.
  - vm_compute. lia.
Defined.

End Runs.

(** ** [str.replace] on renderings with delimited parameter names *)

Section Replace.

Lemma starts_with_prefix (p s : list ascii) :
  starts_with p s = true <-> exists r, s = p ++ r.
Proof.
  revert s. induction p as [|a p IH]; intros s; simpl.
  - split; eauto.
  - destruct s as [|b s].
    + split; [discriminate | intros [r Hr]; discriminate].
    + rewrite andb_true_iff, Ascii.eqb_eq, IH. split.
      * intros [-> [r ->]]. by exists r.
      * intros [r [= -> ->]]. eauto.
Qed.

Lemma starts_with_app (p r : list ascii) : starts_with p (p ++ r) = true.
Proof. apply starts_with_prefix. eauto. Qed.

Lemma replace_scan_skip old new (x R : list ascii) :
  replace_scan old new (length x) (x ++ R) = replace_scan old new 0 R.
Proof.
  induction x as [|a x IH]; simpl; [|exact IH].
  destruct R; reflexivity.
Qed.

(** Text without the first character of [old] is copied. *)
Lemma replace_scan_copy c old' new (t R : list ascii) :
  c ∉ t ->
  replace_scan (c :: old') new 0 (t ++ R) = t ++ replace_scan (c :: old') new 0 R.
Proof.
  induction t as [|a t IH]; intros Hc; [reflexivity|].
  apply not_elem_of_cons in Hc as [Hne Hc].
  cbn [app replace_scan starts_with].
  destruct (Ascii.eqb_spec c a) as [->|_]; [done|]. simpl.
  by rewrite IH.
Qed.

(** A string splits in one way only at its first [c]. *)
Lemma split_at_delimiter c (b b' r r' : list ascii) :
  c ∉ b -> c ∉ b' -> b ++ c :: r = b' ++ c :: r' -> b = b' /\ r = r'.
Proof.
  revert b'. induction b as [|a b IH]; intros [|a' b'] Hb Hb' Heq; simpl in Heq.
  - by injection Heq as ->.
  - injection Heq as <- _. apply not_elem_of_cons in Hb' as [? _]. done.
  - injection Heq as -> _. apply not_elem_of_cons in Hb as [? _]. done.
  - injection Heq as -> Heq.
    apply not_elem_of_cons in Hb as [_ Hb], Hb' as [_ Hb'].
    destruct (IH b' Hb Hb' Heq) as [-> ->]. done.
Qed.

(** If [b], then [c], begins a string that begins with [t], and [t] has
    no [c], then the characters of [t] are characters of [b]. *)
Lemma text_within_body c (t b r R : list ascii) :
  c ∉ t -> b ++ c :: r = t ++ R -> forall x, x ∈ t -> x ∈ b.
Proof.
  revert b. induction t as [|a t IH]; intros b Hc Heq x Hx.
  - by apply elem_of_nil in Hx.
  - apply not_elem_of_cons in Hc as [Hne Hc].
    destruct b as [|a' b]; simpl in Heq.
    + injection Heq as -> _. done.
    + injection Heq as -> Heq.
      apply elem_of_cons in Hx as [->|Hx]; [left|right; eauto].
Qed.

Lemma chars_app (a b : string) : chars (a +:+ b) = chars a ++ chars b.
Proof. induction a as [|x a IH]; simpl; [done|]. unfold chars in *. simpl. by rewrite IH. Qed.

Lemma chars_inj (a b : string) : chars a = chars b -> a = b.
Proof.
  intros H. rewrite <- (string_of_list_ascii_of_string a),
    <- (string_of_list_ascii_of_string b). unfold chars in H. by rewrite H.
Qed.

Lemma chars_render_cons p ps :
  chars (render (p :: ps)) = chars (piece_text p) ++ chars (render ps).
Proof. simpl. apply chars_app. Qed.

Lemma chars_str_replace s old new :
  chars (str_replace s old new) = replace_chars (chars old) (chars new) (chars s).
Proof. unfold str_replace, chars. apply list_ascii_of_string_of_list_ascii. Qed.

End Replace.

Section ReplacePieces.
Variable c : ascii.
Variable names : list string.
Hypothesis names_delimited : forall n, n ∈ names -> delimited c n.

(** Right after the closing delimiter of a mention no name begins. *)
Lemma no_name_after_closing n b ps :
  n ∈ names -> chars n = c :: b ++ [c] -> b ≠ [] -> c ∉ b ->
  well_delimited c names ps ->
  starts_with (b ++ [c]) (chars (render ps)) = false.
Proof.
  intros Hn Hb Hne Hc Hwf.
  destruct ps as [|p ps].
  - destruct b; [done|reflexivity].
  - rewrite chars_render_cons.
    specialize (Hwf p ltac:(left)). destruct p as [t|m]; simpl.
    + destruct Hwf as [Hct (x & Hx & Hfor)].
      destruct (starts_with _ _) eqn:Hp; [|done].
      apply starts_with_prefix in Hp as [r Hr].
      rewrite <- app_assoc in Hr. simpl in Hr. symmetry in Hr.
      pose proof (text_within_body _ _ _ _ _ Hct Hr x Hx) as Hxb.
      exfalso. apply (Hfor n Hn). rewrite Hb.
      right. apply elem_of_app. by left.
    + destruct (names_delimited m Hwf) as (b' & -> & _).
      destruct b as [|a b]; [done|]. simpl.
      apply not_elem_of_cons in Hc as [Hac _].
      destruct (Ascii.eqb_spec a c) as [->|_]; done.
Qed.

(** On well-delimited pieces, replacing a listed name replaces exactly
    its mentions. *)
Lemma replace_delimited n v ps :
  n ∈ names -> well_delimited c names ps ->
  replace_chars (chars n) (chars v) (chars (render ps))
  = chars (render (map (substitute_one n v) ps)).
Proof.
  intros Hn. destruct (names_delimited n Hn) as (b & Hb & Hne & Hc).
  rewrite Hb. cbn [replace_chars].
  induction ps as [|p ps IH]; intros Hwf; [reflexivity|].
  assert (Hwf' : well_delimited c names ps).
  { intros q Hq. apply Hwf. by right. }
  specialize (IH Hwf').
  pose proof (Hwf p ltac:(left)) as Hp.
  cbn [map]. rewrite !chars_render_cons.
  destruct p as [t|m]; cbn [substitute_one piece_text].
  - destruct Hp as [Hct _]. by rewrite replace_scan_copy, IH.
  - destruct (decide (m = n)) as [->|Hmn]; cbn [piece_text].
    + rewrite Hb. cbn [app replace_scan].
      change (c :: (b ++ [c]) ++ chars (render ps))
        with ((c :: b ++ [c]) ++ chars (render ps)).
      rewrite starts_with_app. cbn [length Nat.sub]. rewrite Nat.sub_0_r.
      by rewrite replace_scan_skip, IH.
    + destruct (names_delimited m Hp) as (b' & Hb' & Hne' & Hc').
      rewrite Hb'. cbn [app replace_scan starts_with].
      rewrite Ascii.eqb_refl. cbn [andb].
      assert (starts_with (b ++ [c]) ((b' ++ [c]) ++ chars (render ps)) = false) as ->.
      { destruct (starts_with _ _) eqn:Hs; [|done].
        apply starts_with_prefix in Hs as [r Hr].
        rewrite <- !app_assoc in Hr. simpl in Hr. symmetry in Hr.
        destruct (split_at_delimiter _ _ _ _ _ Hc Hc' Hr) as [<- _].
        exfalso. apply Hmn. apply chars_inj. congruence. }
      rewrite <- app_assoc. rewrite replace_scan_copy by done.
      cbn [app replace_scan starts_with]. rewrite Ascii.eqb_refl. cbn [andb].
      rewrite (no_name_after_closing n b ps Hn Hb Hne Hc Hwf').
      rewrite IH. by rewrite <- app_assoc.
Qed.

Lemma substitute_one_well_delimited n v ps :
  inert c names v -> well_delimited c names ps ->
  well_delimited c names (map (substitute_one n v) ps).
Proof.
  intros Hv Hwf p Hp. apply list_elem_of_fmap in Hp as (q & -> & Hq).
  specialize (Hwf q Hq). destruct q as [t|m]; simpl; [done|].
  destruct (decide (m = n)); done.
Qed.

End ReplacePieces.

(** ** [str.replace] of a delimited name on any string *)

Section Scanner.
Variable c : ascii.
Variable b : list ascii.
Hypothesis b_free : c ∉ b.

Lemma finds_delimited_copy (t o : list ascii) st :
  c ∉ t ->
  finds_delimited c b st (t ++ o)
  = finds_delimited c b (option_map (fun w => w ++ t) st) o.
Proof.
  revert st. induction t as [|a t IH]; intros st Hc; simpl.
  - f_equal. destruct st; simpl; [by rewrite app_nil_r|done].
  - apply not_elem_of_cons in Hc as [Hne Hc].
    destruct (Ascii.eqb_spec a c) as [->|_]; [done|].
    rewrite IH by done. f_equal. destruct st; simpl; [|done].
    by rewrite <- app_assoc.
Qed.

Lemma finds_delimited_name st q :
  finds_delimited c b st (c :: b ++ c :: q) = true.
Proof.
  simpl. rewrite Ascii.eqb_refl. apply orb_true_iff. right.
  rewrite finds_delimited_copy by done. simpl. rewrite Ascii.eqb_refl.
  by rewrite bool_decide_true.
Qed.

Lemma finds_delimited_later p r :
  (forall st, finds_delimited c b st r = true) ->
  forall st, finds_delimited c b st (p ++ r) = true.
Proof.
  intros Hr. induction p as [|a p IH]; intros st; simpl; [apply Hr|].
  destruct (Ascii.eqb a c); [rewrite IH; apply orb_true_r|apply IH].
Qed.

Lemma contains_chars_occurrence (n s : list ascii) :
  contains_chars n s = true -> exists p q, s = p ++ n ++ q.
Proof.
  induction s as [|a s IH]; simpl.
  - intros H. apply starts_with_prefix in H as [r Hr]. by exists [], r.
  - intros [H|H]%orb_true_iff.
    + apply starts_with_prefix in H as [r Hr]. by exists [], r.
    + destruct (IH H) as (p & q & ->). by exists (a :: p), q.
Qed.

Lemma contains_chars_suffix (n s1 s2 : list ascii) :
  contains_chars n (s1 ++ s2) = false -> starts_with n s2 = false.
Proof.
  induction s1 as [|a s1 IH]; simpl.
  - destruct s2; simpl; [done|]. by intros [? _]%orb_false_iff.
  - by intros [_ ?]%orb_false_iff; apply IH.
Qed.

(** What the scanner does not find does not occur. *)
Lemma not_found_not_contained s :
  finds_delimited c b None s = false ->
  contains_chars (c :: b ++ [c]) s = false.
Proof.
  intros Hf. destruct (contains_chars _ s) eqn:Hc; [|done].
  apply contains_chars_occurrence in Hc as (p & q & ->).
  rewrite finds_delimited_later in Hf; [done|].
  intros st. cbn [app]. rewrite <- app_assoc. apply finds_delimited_name.
Qed.

Variable x : ascii.
Variables bm v : list ascii.
Hypothesis x_not_in_b : x ∉ b.
Hypothesis v_free : c ∉ v.
Hypothesis x_in_v : x ∈ v.

(** Replacing [c bm c] by [v] in [s]: if wherever in [s] the scan copies
    a [c] the name [c b c] does not begin, the scanner does not find
    [c b c] in the result. *)
Lemma replace_scan_finds_nothing :
  forall k s st, length s <= k ->
    (forall s1 s2, s = s1 ++ c :: s2 ->
       starts_with (c :: bm ++ [c]) (c :: s2) = false ->
       starts_with (c :: b ++ [c]) (c :: s2) = false) ->
    cannot_complete c x b st s ->
    finds_delimited c b st (replace_scan (c :: bm ++ [c]) v 0 s) = false.
Proof.
  induction k as [|k IH]; intros s st Hk Hs Hst.
  - destruct s; [reflexivity|simpl in Hk; lia].
  - destruct s as [|a s]; [reflexivity|].
    cbn [replace_scan].
    destruct (starts_with (c :: bm ++ [c]) (a :: s)) eqn:Hm.
    + apply starts_with_prefix in Hm as [rest Hrest].
      simpl in Hrest. injection Hrest as -> ->.
      replace (length (c :: bm ++ [c]) - 1) with (length (bm ++ [c]))
        by (simpl; lia).
      rewrite replace_scan_skip.
      rewrite finds_delimited_copy by done.
      apply IH.
      * simpl in Hk. rewrite !length_app in Hk. lia.
      * intros s1 s2 ->. apply (Hs (c :: (bm ++ [c]) ++ s1) s2).
        simpl. by rewrite <- !app_assoc.
      * destruct st as [w|]; simpl; [|done].
        left. apply elem_of_app. by right.
    + destruct (Ascii.eqb_spec a c) as [->|Hac].
      * cbn [finds_delimited]. rewrite Ascii.eqb_refl.
        apply orb_false_iff. split.
        -- apply bool_decide_eq_false. intros ->. simpl in Hst.
           destruct Hst as [Hx|Hr]; [done|]. by apply (Hr s).
        -- apply IH; [simpl in Hk; lia| |].
           ++ intros s1 s2 ->. by apply (Hs (c :: s1) s2).
           ++ simpl. right. intros r ->.
              specialize (Hs [] (b ++ c :: r) eq_refl Hm).
              change (c :: b ++ c :: r) with ((c :: b) ++ [c] ++ r) in Hs.
              rewrite app_assoc in Hs.
              change ((c :: b) ++ [c]) with (c :: b ++ [c]) in Hs.
              by rewrite starts_with_app in Hs.
      * cbn [finds_delimited]. destruct (Ascii.eqb_spec a c); [done|].
        apply IH; [simpl in Hk; lia| |].
        -- intros s1 s2 ->. by apply (Hs (a :: s1) s2).
        -- destruct st as [w|]; simpl; [|done].
           destruct Hst as [Hx|Hr]; [left; apply elem_of_app; by left|right].
           intros r Heq. apply (Hr r). by rewrite <- app_assoc in Heq.
Qed.

(** After [c bm c] has been replaced by [v], the name [c b c] does not
    occur if it is the name replaced, or if it did not occur before. *)
Lemma replace_scan_without_name s :
  bm = b \/ contains_chars (c :: b ++ [c]) s = false ->
  contains_chars (c :: b ++ [c]) (replace_scan (c :: bm ++ [c]) v 0 s) = false.
Proof.
  intros H. apply not_found_not_contained.
  apply (replace_scan_finds_nothing (length s)); [done| |done].
  intros s1 s2 -> Hm. destruct H as [->|H]; [done|].
  by apply contains_chars_suffix in H.
Qed.

End Scanner.

Section ReprAnywhere.
Context `{E : Engine}.

(** On any rendering: if the listed names are wrapped in [c] and the
    value texts are inert, then after the loop of [repr] over a part [l] of
    the names none of them occurs, nor does any listed name that did not
    occur before. *)
Lemma repr_loop_leaves_no_name (c : ascii) (names : list string)
    (vals : gmap string (gmap string pyfloat)) (d0 : gmap string pyfloat)
    (decimals : Z) :
  vals !! "d0" = Some d0 ->
  (forall n, n ∈ names ->
     delimited c n
     /\ exists v, d0 !! n = Some v /\ inert c names (np_round_str v decimals)) ->
  forall l s (gone : string -> Prop),
    (forall n, n ∈ l -> n ∈ names) ->
    (forall n, gone n -> n ∈ names /\ str_contains s n = false) ->
    exists out, repr_loop vals decimals l s = Ok out
                /\ forall n, gone n \/ n ∈ l -> str_contains out n = false.
Proof.
  intros Hd0 Hnames.
  induction l as [|m l IH]; intros s gone Hl Hgone; simpl.
  - exists s. split; [done|]. intros n [Hn|Hn]; [by apply Hgone|].
    by apply elem_of_nil in Hn.
  - unfold dict_get. rewrite Hd0. simpl.
    destruct (Hnames m (Hl m ltac:(left)))
      as ((bm & Hbm & _ & Hcm) & v & Hv & Hcv & x & Hxv & Hx).
    rewrite Hv. simpl.
    destruct (IH (str_replace s m (np_round_str v decimals))
                 (fun n => gone n \/ n = m)) as (out & Hout & Hnone).
    + intros n Hn. apply Hl. by right.
    + intros n Hn.
      assert (Hin : n ∈ names).
      { destruct Hn as [Hn| ->]; [by apply Hgone|apply Hl; left]. }
      split; [done|].
      destruct (Hnames n Hin) as ((b & Hb & _ & Hcb) & _).
      unfold str_contains. fold (chars n).
      fold (chars (str_replace s m (np_round_str v decimals))).
      rewrite chars_str_replace, Hbm, Hb. cbn [replace_chars].
      apply (replace_scan_without_name c b Hcb x); [|done|done|].
      * specialize (Hx n Hin). rewrite Hb in Hx.
        intros Hxb. apply Hx. right. apply elem_of_app. by left.
      * destruct Hn as [Hn| ->].
        -- right. destruct (Hgone n Hn) as [_ Hs].
           unfold str_contains in Hs. fold (chars n) in Hs. by rewrite Hb in Hs.
        -- left. rewrite Hbm in Hb. injection Hb as Hb.
           by apply app_inv_tail in Hb.
    + exists out. split; [done|]. intros n [Hn|Hn]; apply Hnone.
      * left. by left.
      * apply elem_of_cons in Hn as [->|Hn]; [left; by right|by right].
Qed.

End ReprAnywhere.

Section Repr.
Context `{E : Engine}.

Lemma substitute_listed_nil d0 decimals ps :
  map (substitute_listed d0 decimals []) ps = ps.
Proof.
  induction ps as [|[t|m] ps IH]; simpl; [done| |]; rewrite IH; [done|].
  destruct (decide (m ∈ [])) as [Hm|_]; [by apply elem_of_nil in Hm|done].
Qed.

Lemma substitute_listed_cons d0 decimals n v l ps :
  d0 !! n = Some v ->
  map (substitute_listed d0 decimals l)
      (map (substitute_one n (np_round_str v decimals)) ps)
  = map (substitute_listed d0 decimals (n :: l)) ps.
Proof.
  intros Hv. rewrite map_map. apply map_ext. intros [t|m]; simpl; [done|].
  destruct (decide (m = n)) as [->|Hmn]; simpl.
  - rewrite decide_True by left. by rewrite Hv.
  - destruct (decide (m ∈ l)) as [Hml|Hml].
    + rewrite decide_True by (by right). done.
    + rewrite decide_False; [done|].
      intros [?|?]%elem_of_cons; done.
Qed.

(** The loop of [repr] over a part [l] of delimited names substitutes
    the mentions of those names. *)
Lemma repr_loop_delimited (c : ascii) (names : list string)
    (vals : gmap string (gmap string pyfloat)) (d0 : gmap string pyfloat)
    (decimals : Z) :
  vals !! "d0" = Some d0 ->
  (forall n, n ∈ names ->
     delimited c n
     /\ exists v, d0 !! n = Some v /\ inert c names (np_round_str v decimals)) ->
  forall l ps,
    (forall n, n ∈ l -> n ∈ names) ->
    well_delimited c names ps ->
    repr_loop vals decimals l (render ps)
    = Ok (render (map (substitute_listed d0 decimals l) ps)).
Proof.
  intros Hd0 Hnames.
  induction l as [|n l IH]; intros ps Hl Hwf; simpl.
  - by rewrite substitute_listed_nil.
  - unfold dict_get. rewrite Hd0. simpl.
    destruct (Hnames n (Hl n ltac:(left))) as (Hdel & v & Hv & Hin).
    rewrite Hv. simpl.
    assert (str_replace (render ps) n (np_round_str v decimals)
            = render (map (substitute_one n (np_round_str v decimals)) ps)) as ->.
    { apply chars_inj. rewrite chars_str_replace.
      apply (replace_delimited c names); [firstorder|by apply Hl; left|done]. }
    rewrite IH.
    + by rewrite (substitute_listed_cons _ _ _ v).
    + intros m Hm. apply Hl. by right.
    + by apply substitute_one_well_delimited.
Qed.

Lemma elem_of_mentions m ps : Param m ∈ ps -> m ∈ mentions ps.
Proof.
  intros H. apply list_elem_of_In. apply in_flat_map.
  exists (Param m). split; [by apply list_elem_of_In|by left].
Qed.

Lemma elem_of_texts t ps : Text t ∈ ps -> t ∈ texts ps.
Proof.
  intros H. apply list_elem_of_In. apply in_flat_map.
  exists (Text t). split; [by apply list_elem_of_In|by left].
Qed.


End Repr.

Section ReprRuns.

Lemma not_elem_of_checked (x : ascii) (t : list ascii) :
  forallb (fun y => negb (Ascii.eqb y x)) t = true -> x ∉ t.
Proof.
  intros Ht Hin. rewrite forallb_forall in Ht.
  apply list_elem_of_In, Ht in Hin. by rewrite Ascii.eqb_refl in Hin.
Qed.

Lemma foreign_checked (names : list string) (x : ascii) :
  forallb (fun n => forallb (fun y => negb (Ascii.eqb y x)) (chars n)) names
  = true ->
  foreign names x.
Proof.
  intros H n Hn. rewrite forallb_forall in H.
  apply not_elem_of_checked, H. by apply list_elem_of_In.
Qed.

Lemma delimited_checked (c : ascii) (n : string) (b : list ascii) :
  chars n = c :: b ++ [c] ->
  negb (Nat.eqb (length b) 0) = true ->
  forallb (fun y => negb (Ascii.eqb y c)) b = true ->
  delimited c n.
Proof.
  intros Hn Hb Hc. exists b. split; [done|]. split.
  - intros ->. discriminate Hb.
  - by apply not_elem_of_checked.
Qed.

Lemma inert_checked (c x : ascii) (names : list string) (t : string) :
  forallb (fun y => negb (Ascii.eqb y c)) (chars t) = true ->
  existsb (Ascii.eqb x) (chars t) = true ->
  foreign names x ->
  inert c names t.
Proof.
  intros Hc Hx Hf. split; [by apply not_elem_of_checked|].
  apply existsb_exists in Hx as (y & Hy & Heq).
  apply Ascii.eqb_eq in Heq as <-.
  exists x. split; [by apply list_elem_of_In|done].
Qed.


End ReprRuns.

(** * Further properties of the facade *)

(** ** [fit]: what it keeps, what it replaces *)

Section FitState.
Context `{E : Engine}.

Lemma add_primitive_refs (s s0 : BMSRegressor) op h :
  prior_par s0 = prior_par s -> ops s0 = ops s -> custom_ops s0 = custom_ops s ->
  add_primitive s0 op h = add_primitive s op h.
Proof. intros Hp Ho Hc. unfold add_primitive. by rewrite Hp, Ho, Hc. Qed.

Lemma registered_refs (s s0 : BMSRegressor) l h :
  prior_par s0 = prior_par s -> ops s0 = ops s -> custom_ops s0 = custom_ops s ->
  registered s0 l h = registered s l h.
Proof.
  intros Hp Ho Hc. revert h. induction l as [|op l IH]; intros h; [done|].
  unfold registered in *. simpl. rewrite (add_primitive_refs s s0) by done.
  apply IH.
Qed.

Lemma root_registered_refs (s s0 : BMSRegressor) root h :
  prior_par s0 = prior_par s -> ops s0 = ops s -> custom_ops s0 = custom_ops s ->
  root_registered s0 root h = root_registered s root h.
Proof.
  intros Hp Ho Hc. destruct root as [[op|r]|]; simpl; [|by rewrite Ho|done].
  by rewrite (add_primitive_refs s s0).
Qed.

(** X1. Whatever its outcome, [fit] assigns neither the iteration budget
    nor the references to the three tables, which are those of before,
    and it never assigns [temp_]. *)
Theorem fit_keeps_configuration X y k root cops rs (s : BMSRegressor) (h : heap) :
  let s' := fst (snd (fit X y k root cops rs (s, h))) in
  epochs s' = epochs s
  /\ prior_par s' = prior_par s
  /\ ops s' = ops s
  /\ custom_ops s' = custom_ops s
  /\ temp_ s' = temp_ s.
Proof.
  cbv zeta. rewrite fit_run.
  destruct (resolve_variables X) as [vars|]; [|done]. cbv zeta.
  destruct (check_X_y X y) as [Xy|]; [|done].
  destruct (pd_DataFrame _ _) as [Xf|]; [|done].
  destruct (root_registered _ _ _) as [h2|]; [|done].
  destruct (Parallel_build _) as [p|]; [|done].
  destruct (utils_run p _) as [p' [best|]]; done.
Qed.

(** X2. A successful [fit] replaces the fitted state wholesale: started
    from any other estimator with the same configuration, on the same
    store and arguments, it succeeds as well and ends in the very same
    estimator and store. Nothing of an earlier fit shows in the result. *)
Theorem fit_discards_previous_state X y k root cops rs
    (s s0 s' : BMSRegressor) (h h' : heap) :
  ts s0 = ts s -> epochs s0 = epochs s -> temp_ s0 = temp_ s ->
  prior_par s0 = prior_par s -> ops s0 = ops s -> custom_ops s0 = custom_ops s ->
  fit X y k root cops rs (s, h) = (Ok tt, (s', h')) ->
  fit X y k root cops rs (s0, h) = (Ok tt, (s', h')).
Proof.
  intros Hts Hep Htemp Hp Ho Hc. rewrite !fit_run.
  destruct (resolve_variables X) as [vars|]; [|congruence]. cbv zeta.
  destruct (check_X_y X y) as [Xy|]; [|congruence].
  destruct (pd_DataFrame _ _) as [Xf|]; [|congruence].
  rewrite (registered_refs (set_variables vars s) (set_variables vars s0)) by done.
  rewrite (root_registered_refs (set_variables vars s) (set_variables vars s0))
    by done.
  destruct (root_registered _ _ _) as [h2|]; [|congruence].
  assert (session_args_of (set_variables vars s0) h2 Xf (snd Xy) k root rs
          = session_args_of (set_variables vars s) h2 Xf (snd Xy) k root rs) as ->.
  { unfold session_args_of. simpl. by rewrite Hts, Hp, Ho, Hc. }
  destruct (Parallel_build _) as [p|]; [|congruence].
  simpl. rewrite Hep.
  destruct (utils_run p _) as [p' [best|]]; [|congruence].
  intros [= <- <-]. do 2 f_equal.
  unfold fit_result, set_X_y, set_models_, set_run_results, set_pms,
    set_variables; simpl.
  by rewrite Hts, Hep, Htemp, Hp, Ho, Hc.
Qed.

Lemma check_y_Ok y ya :
  check_y y = Ok ya -> n_rows ya = n_rows (as_array y).
Proof.
  unfold check_y, n_rows.
  destruct (shape (as_array y)) as [|n [|[|[|?]] [|? ?]]]; try congruence;
    destruct (forallb _ _); try congruence; by intros [= <-].
Qed.

Lemma check_X_y_raises X y e : check_X_y X y = Raise e -> e = ValidationError.
Proof.
  unfold check_X_y.
  destruct (check_array X) as [Xa|e1] eqn:HX; simpl.
  - unfold check_y.
    destruct (shape (as_array y)) as [|n [|[|[|?]] [|? ?]]]; simpl; try congruence;
      destruct (forallb _ _); simpl; try congruence;
      destruct (_ =? _); congruence.
  - intros [= <-]. by eapply check_array_raises.
Qed.

(** X3. When [X] and [y] do not have the same number of rows, [fit]
    raises the validation error, having stored the names read off [X] and
    nothing else: no operator is registered, no session is built. *)
Theorem fit_rejects_row_mismatch X y k root cops rs (s : BMSRegressor)
    (h : heap) (vars : list string) :
  resolve_variables X = Ok vars ->
  n_rows (as_array X) ≠ n_rows (as_array y) ->
  fit X y k root cops rs (s, h)
  = (Raise ValidationError, (set_variables vars s, h)).
Proof.
  intros Hv Hrows. rewrite fit_run, Hv. cbv zeta.
  destruct (check_X_y X y) as [Xy|e] eqn:HXy.
  - exfalso. unfold check_X_y in HXy.
    destruct (check_array X) as [Xa|] eqn:HX; simpl in HXy; [|congruence].
    destruct (check_y y) as [ya|] eqn:Hy; simpl in HXy; [|congruence].
    destruct (n_rows Xa =? n_rows ya) eqn:Hn; [|congruence].
    apply Nat.eqb_eq in Hn.
    apply check_array_Ok in HX as (_ & Hr & _). apply check_y_Ok in Hy.
    congruence.
  - by rewrite (check_X_y_raises _ _ _ HXy).
Qed.

End FitState.

(** ** Registration: order, persistence, what the session receives *)

Section Registration.
Context `{E : Engine}.

Lemma registered_app (s : BMSRegressor) l1 l2 h :
  registered s (l1 ++ l2) h = registered s l2 (registered s l1 h).
Proof. unfold registered. apply fold_left_app. Qed.

(** Operators under other names leave a name's entries alone. *)
Lemma registered_other_names (s : BMSRegressor) l k : forall h,
  (forall op, op ∈ l -> cname op ≠ k) ->
  read_ops (registered s l h) (ops s) !! k = read_ops h (ops s) !! k
  /\ read_custom (registered s l h) (custom_ops s) !! k
     = read_custom h (custom_ops s) !! k.
Proof.
  induction l as [|op l IH]; intros h Hl; [done|].
  change (registered s (op :: l) h) with (registered s l (add_primitive s op h)).
  destruct (IH (add_primitive s op h)) as [-> ->].
  { intros op' Hop'. apply Hl. by right. }
  rewrite add_primitive_ops, add_primitive_custom.
  rewrite !lookup_insert_ne; [done| |]; apply Hl; left.
Qed.

Lemma registered_prior_one (s : BMSRegressor) l op : forall h,
  op ∈ l ->
  read_priors (registered s l h) (prior_par s) !! ("Nopi_" +:+ cname op)
  = Some (Fnum 1).
Proof.
  induction l as [|op' l IH] using rev_ind; intros h Hop.
  - by apply elem_of_nil in Hop.
  - rewrite registered_app. cbn [registered fold_left].
    rewrite add_primitive_priors.
    destruct (decide ("Nopi_" +:+ cname op' = "Nopi_" +:+ cname op)) as [->|Hne].
    + by rewrite lookup_insert_eq.
    + rewrite lookup_insert_ne by done.
      apply elem_of_app in Hop as [Hop|Hop]; [by apply IH|].
      apply list_elem_of_singleton in Hop as ->. done.
Qed.

(** X4. In the list of custom operators the last one of a name wins: if
    no operator after [op] in the list has its name, then, once the list
    is registered, the operator table gives [op]'s arity, the
    custom-operator table gives [op] itself, and the prior weight of the
    name is 1. *)
Theorem custom_ops_last_registration_wins (s : BMSRegressor)
    (l1 l2 : list callable) (op : callable) (h : heap) :
  (forall op', op' ∈ l2 -> cname op' ≠ cname op) ->
  let h' := registered s (l1 ++ op :: l2) h in
  read_ops h' (ops s) !! cname op = Some (length (cparams op))
  /\ read_custom h' (custom_ops s) !! cname op = Some op
  /\ read_priors h' (prior_par s) !! ("Nopi_" +:+ cname op) = Some (Fnum 1).
Proof.
  intros Hl2 h'. subst h'. split; [|split].
  - rewrite registered_app.
    change (registered s (op :: l2) ?h0)
      with (registered s l2 (add_primitive s op h0)).
    destruct (registered_other_names s l2 (cname op)
                (add_primitive s op (registered s l1 h)) Hl2) as [-> _].
    by rewrite add_primitive_ops, lookup_insert_eq.
  - rewrite registered_app.
    change (registered s (op :: l2) ?h0)
      with (registered s l2 (add_primitive s op h0)).
    destruct (registered_other_names s l2 (cname op)
                (add_primitive s op (registered s l1 h)) Hl2) as [_ ->].
    by rewrite add_primitive_custom, lookup_insert_eq.
  - apply registered_prior_one. apply elem_of_app. right. left.
Qed.

(** X5. Registering two operators of different names gives the same
    store in either order. *)
Theorem add_primitive_commutes (s : BMSRegressor) (a b : callable) (h : heap) :
  cname a ≠ cname b ->
  add_primitive s a (add_primitive s b h) = add_primitive s b (add_primitive s a h).
Proof.
  intros Hab. unfold add_primitive, write_priors, write_ops, write_custom,
    read_priors, read_ops, read_custom; simpl.
  rewrite !lookup_insert_eq; simpl. rewrite !insert_insert_eq. f_equal.
  - f_equal.
    destruct (decide ("Nopi_" +:+ cname a = "Nopi_" +:+ cname b)) as [->|Hne].
    + done.
    + by apply insert_insert_ne.
  - f_equal. by apply insert_insert_ne.
  - f_equal. by apply insert_insert_ne.
Qed.

(** X6. Once the input has passed validation, what [fit] registered
    stays registered whether or not the engine then fails: the store
    [fit] leaves is the one with the custom operators and then the root
    registered, and every custom operator has an entry in the
    custom-operator table. *)
Theorem fit_registrations_outlive_engine_failure X y k root cops rs
    (s : BMSRegressor) (h h2 : heap) vars Xy Xf :
  resolve_variables X = Ok vars ->
  check_X_y X y = Ok Xy ->
  pd_DataFrame (fst Xy) vars = Ok Xf ->
  root_registered (set_variables vars s) root
    (registered (set_variables vars s) (default [] cops) h) = Ok h2 ->
  snd (snd (fit X y k root cops rs (s, h))) = h2
  /\ forall op, op ∈ default [] cops ->
       is_Some (read_custom h2 (custom_ops s) !! cname op).
Proof.
  intros Hv HXy HXf Hr. split.
  - rewrite fit_run, Hv. cbv zeta. rewrite HXy, HXf, Hr.
    destruct (Parallel_build _) as [p|]; [|done].
    destruct (utils_run p _) as [p' [best|]]; done.
  - intros op Hop.
    assert (Hreg : is_Some (read_custom
              (registered (set_variables vars s) (default [] cops) h)
              (custom_ops s) !! cname op)).
    { revert Hop. generalize (default [] cops). intros l.
      induction l as [|op' l IH] using rev_ind; intros Hop.
      - by apply elem_of_nil in Hop.
      - rewrite registered_app. cbn [registered fold_left].
        change (custom_ops s) with (custom_ops (set_variables vars s)).
        rewrite add_primitive_custom.
        destruct (decide (cname op' = cname op)) as [->|Hne].
        + rewrite lookup_insert_eq. eauto.
        + rewrite lookup_insert_ne by done.
          apply elem_of_app in Hop as [Hop|Hop]; [by apply IH|].
          apply list_elem_of_singleton in Hop as ->. done. }
    destruct root as [[r|r]|]; simpl in Hr.
    + injection Hr as <-.
      change (custom_ops s) with (custom_ops (set_variables vars s)).
      rewrite add_primitive_custom.
      destruct (decide (cname r = cname op)) as [->|Hne].
      * rewrite lookup_insert_eq. eauto.
      * by rewrite lookup_insert_ne.
    + destruct (bool_decide _); [congruence|]. by injection Hr as <-.
    + by injection Hr as <-.
Qed.

(** X7. The session a successful [fit] runs, and whose state after the
    run it keeps as [pms], is the one built with the estimator's ladder,
    the names [fit] stored, the parameter names [a0 .. a(k-1)], the frame
    retained as [X_], and the tables of the store [fit] leaves; the best
    model stored is that run's.  A function given as root is in these
    tables with its own arity and itself as the custom operator, even if
    a custom operator has its name. *)
Theorem fit_session_arguments X y k root cops rs
    (s s' : BMSRegressor) (h h' : heap) :
  fit X y k root cops rs (s, h) = (Ok tt, (s', h')) ->
  exists args p best,
    Parallel_build args = Some p
    /\ utils_run p (epochs s) = (pms s', Some best)
    /\ model_ s' = fst (fst best)
    /\ arg_Ts args = ts s
    /\ arg_variables args = variables s'
    /\ arg_parameters args = numbered "a" k
    /\ Some (arg_x args) = X_ s'
    /\ Some (arg_y args) = y_ s'
    /\ arg_prior_par args = read_priors h' (prior_par s)
    /\ arg_ops args = read_ops h' (ops s)
    /\ arg_custom_ops args = read_custom h' (custom_ops s)
    /\ arg_root args = root
    /\ arg_random_state args = rs
    /\ forall r, root = Some (RootCallable r) ->
         arg_ops args !! cname r = Some (length (cparams r))
         /\ arg_custom_ops args !! cname r = Some r
         /\ arg_prior_par args !! ("Nopi_" +:+ cname r) = Some (Fnum 1).
Proof.
  rewrite fit_run.
  destruct (resolve_variables X) as [vars|]; [|congruence]. cbv zeta.
  destruct (check_X_y X y) as [Xy|]; [|congruence].
  destruct (pd_DataFrame _ _) as [Xf|]; [|congruence].
  destruct (root_registered _ _ _) as [h2|] eqn:Hr; [|congruence].
  destruct (Parallel_build _) as [p|] eqn:Hp; [|congruence].
  destruct (utils_run p _) as [p' [best|]] eqn:Hrun; [|congruence].
  intros [= <- <-]. eexists _, p, best. split; [exact Hp|].
  split; [exact Hrun|].
  repeat (split; [reflexivity|]). intros r ->. simpl in Hr. injection Hr as <-.
  unfold session_args_of.
  cbn [arg_ops arg_custom_ops arg_prior_par].
  rewrite add_primitive_ops, add_primitive_custom, add_primitive_priors.
  by rewrite !lookup_insert_eq.
Qed.

(** X8. A string given as root that is not the name of an operator makes
    [fit] fail with an attribute error at the registration: by then the
    names are stored and the custom operators registered, and no session
    has been built. *)
Theorem fit_unknown_string_root X y k (r : string) cops rs
    (s : BMSRegressor) (h : heap) vars Xy Xf :
  resolve_variables X = Ok vars ->
  check_X_y X y = Ok Xy ->
  pd_DataFrame (fst Xy) vars = Ok Xf ->
  read_ops (registered (set_variables vars s) (default [] cops) h) (ops s) !! r
    = None ->
  fit X y k (Some (RootStr r)) cops rs (s, h)
  = (Raise AttributeError,
     (set_variables vars s,
      registered (set_variables vars s) (default [] cops) h)).
Proof.
  intros Hv HXy HXf Hr. rewrite fit_run, Hv. cbv zeta. rewrite HXy, HXf.
  simpl. by rewrite bool_decide_eq_true_2.
Qed.

End Registration.

(** ** Variable and parameter names *)

Section Names.
Context `{E : Engine}.

Lemma str_of_nat_inj n m : str_of_nat n = str_of_nat m -> n = m.
Proof.
  unfold str_of_nat. intros H.
  apply (f_equal NilEmpty.uint_of_string) in H.
  rewrite !NilEmpty.usu in H. injection H as H.
  by apply DecimalNat.Unsigned.to_uint_inj.
Qed.

Lemma append_inj_r (p a b : string) : p +:+ a = p +:+ b -> a = b.
Proof. induction p as [|c p IH]; simpl; [done|]. intros [= H]. by apply IH. Qed.

Lemma NoDup_numbered prefix n : NoDup (numbered prefix n).
Proof.
  assert (Inj (=) (=) (fun i => prefix +:+ str_of_nat i)) as Hinj.
  { intros i j Hij. by apply str_of_nat_inj, (append_inj_r prefix). }
  unfold numbered. apply (NoDup_fmap_2 _), NoDup_seq.
Qed.

Lemma elem_of_numbered prefix n x :
  x ∈ numbered prefix n -> exists i, i < n /\ x = prefix +:+ str_of_nat i.
Proof.
  unfold numbered. intros Hx.
  apply list_elem_of_fmap in Hx as (i & -> & Hi).
  apply elem_of_seq in Hi. exists i. split; [lia|done].
Qed.

(** X9. After a successful [fit] on an array without labels the variable
    names are pairwise different, so are the parameter names handed to
    the session, and no variable name is a parameter name. *)
Theorem fit_array_names_distinct (a : ndarray cell) y k root cops rs
    (s s' : BMSRegressor) (h h' : heap) :
  fit (NumpyArray a) y k root cops rs (s, h) = (Ok tt, (s', h')) ->
  NoDup (variables s')
  /\ NoDup (numbered "a" k)
  /\ forall v, v ∈ variables s' -> v ∉ numbered "a" k.
Proof.
  intros Hfit.
  destruct (fit_Ok_names _ _ _ _ _ _ _ _ _ _ Hfit) as (Xa & HX & Hv & _).
  rewrite (resolve_variables_Ok _ _ _ HX Hv).
  split; [apply NoDup_numbered|]. split; [apply NoDup_numbered|].
  intros v Hv1 Hv2.
  apply elem_of_numbered in Hv1 as (i & _ & ->).
  apply elem_of_numbered in Hv2 as (j & _ & Hj). discriminate Hj.
Qed.

End Names.

(** ** [predict] *)

Section Predict.
Context `{E : Engine}.

(** X10. On a valid input whose number of columns is not the number of
    stored names, [predict] fails in [pd.DataFrame] with the shape error,
    before the model is asked anything. *)
Theorem predict_rejects_column_mismatch (self : BMSRegressor) (X : array_like)
    (Xa : ndarray pyfloat) :
  check_array X = Ok Xa ->
  n_cols (as_array X) ≠ length (variables self) ->
  predict self X = Raise ShapeError.
Proof.
  intros HX Hc. rewrite predict_run, HX.
  apply check_array_Ok in HX as (_ & _ & Hc' & _).
  destruct (n_cols Xa =? length (variables self)) eqn:Hn; [|done].
  apply Nat.eqb_eq in Hn. congruence.
Qed.

(** X11. On no estimator, fitted or not, does [predict] raise the
    not-fitted error, and what it returns is an array of one column. *)
Theorem predict_never_not_fitted (self : BMSRegressor) (X : array_like) :
  match predict self X with
  | Ok out => exists n, shape out = [n; 1]
  | Raise e => e ≠ NotFittedError
  end.
Proof.
  rewrite predict_run. destruct (check_array X) as [Xa|e] eqn:HX.
  - destruct (_ =? _); [|done].
    destruct (Tree_predict _ _) as [col|]; [|done].
    by exists (length col).
  - by rewrite (check_array_raises _ _ HX).
Qed.

(** X12. Predicting on the very input a [fit] has just succeeded on
    hands the best model the frame the estimator retained as [X_]. *)
Theorem predict_on_training_input X y k root cops rs
    (s s' : BMSRegressor) (h h' : heap) :
  fit X y k root cops rs (s, h) = (Ok tt, (s', h')) ->
  exists Xf,
    X_ s' = Some Xf
    /\ predict s' X
       = rbind (engine_call (Tree_predict (model_ s') Xf)) (fun col =>
         Ok (expand_dims_1 col)).
Proof.
  intros Hfit.
  destruct (fit_Ok_names _ _ _ _ _ _ _ _ _ _ Hfit)
    as (Xa & HX & _ & HX_ & Hn & _).
  eexists. split; [exact HX_|].
  rewrite predict_run, HX, Hn, Nat.eqb_refl.
  by destruct (Tree_predict _ _).
Qed.

(** X13. A [fit] that fails after reading names of another length off its
    input breaks [predict] for inputs of the old width: they now meet
    the shape error, while [get_models] goes on reading the old names
    off the retained frame. *)
Theorem failed_fit_breaks_predict X' y' k root cops rs
    (s s' : BMSRegressor) (h h' : heap) (e : exn) vars' X Xa :
  fit X' y' k root cops rs (s, h) = (Raise e, (s', h')) ->
  resolve_variables X' = Ok vars' ->
  length vars' ≠ length (variables s) ->
  check_array X = Ok Xa ->
  n_cols Xa = length (variables s) ->
  predict s' X = Raise ShapeError
  /\ fitted_columns s' = fitted_columns s.
Proof.
  intros Hfit Hv Hlen HX Hc.
  assert (variables s' = vars' /\ X_ s' = X_ s) as [Hvs HXs].
  { revert Hfit. rewrite fit_run, Hv. cbv zeta.
    destruct (check_X_y X' y') as [Xy|]; [|by intros [= _ <- _]].
    destruct (pd_DataFrame _ _) as [Xf|]; [|by intros [= _ <- _]].
    destruct (root_registered _ _ _) as [h2|]; [|by intros [= _ <- _]].
    destruct (Parallel_build _) as [p|]; [|by intros [= _ <- _]].
    destruct (utils_run p _) as [p' [best|]]; [congruence|by intros [= _ <- _]]. }
  split.
  - rewrite predict_run, HX, Hvs.
    destruct (n_cols Xa =? length vars') eqn:Hn; [|done].
    apply Nat.eqb_eq in Hn. congruence.
  - unfold fitted_columns. by rewrite HXs.
Qed.

End Predict.

(** ** The constructor and [get_models] *)

Section Facades.
Context `{E : Engine}.

(** The constructor, run. *)
Lemma init_run g pp tsa ep (h : heap) :
  BMSRegressor_init g pp tsa ep h
  = (MkBMS (default TEMPERATURES tsa) (default (PRIORS g) pp) (default 1500 ep)
       (Parallel_new (default TEMPERATURES tsa)) (S (next_loc h))
       (S (S (next_loc h))) None None Tree_new 0%Q [Tree_new] (Finf false) [] [],
     Heap (<[next_loc h := default_priors]> (prior_tables h))
          (<[S (next_loc h) := default_ops]> (op_tables h))
          (<[S (S (next_loc h)) := ∅]> (custom_tables h))
          (S (S (S (next_loc h))))).
Proof. reflexivity. Qed.

(** The tables of a new estimator, and the store around them. *)
Lemma init_tables (g : globals) pp tsa ep (h : heap) :
  let r := BMSRegressor_init g pp tsa ep h in
  (prior_par (fst r) = default (PRIORS g) pp
   /\ next_loc h <= ops (fst r) < next_loc (snd r)
   /\ next_loc h <= custom_ops (fst r) < next_loc (snd r)
   /\ read_ops (snd r) (ops (fst r)) = default_ops
   /\ read_custom (snd r) (custom_ops (fst r)) = ∅)
  /\ forall l, l < next_loc h ->
       read_priors (snd r) l = read_priors h l
       /\ read_ops (snd r) l = read_ops h l
       /\ read_custom (snd r) l = read_custom h l.
Proof.
  cbv zeta. rewrite init_run. cbn [fst snd prior_par ops custom_ops next_loc].
  split.
  - split; [done|]. split; [lia|]. split; [lia|].
    unfold read_ops, read_custom; simpl. by rewrite !lookup_insert_eq.
  - intros l Hl. unfold read_priors, read_ops, read_custom; simpl.
    rewrite !lookup_insert_ne by lia. done.
Qed.

(** X14. The constructor gives the estimator an operator table and a
    custom-operator table of its own, at addresses not in use before,
    holding the default operators and nothing; the prior table is the
    one passed in, or [PRIORS], by reference; and every table that
    existed is left as it was. *)
Theorem constructor_allocates_own_tables (g : globals) pp tsa ep (h : heap) :
  let r := BMSRegressor_init g pp tsa ep h in
  (prior_par (fst r) = default (PRIORS g) pp
   /\ next_loc h <= ops (fst r) < next_loc (snd r)
   /\ next_loc h <= custom_ops (fst r) < next_loc (snd r)
   /\ read_ops (snd r) (ops (fst r)) = default_ops
   /\ read_custom (snd r) (custom_ops (fst r)) = ∅)
  /\ forall l, l < next_loc h ->
       read_priors (snd r) l = read_priors h l
       /\ read_ops (snd r) l = read_ops h l
       /\ read_custom (snd r) l = read_custom h l.
Proof.
  cbv zeta. rewrite init_run. cbn [fst snd prior_par ops custom_ops next_loc].
  split.
  - split; [done|]. split; [lia|]. split; [lia|].
    unfold read_ops, read_custom; simpl. by rewrite !lookup_insert_eq.
  - intros l Hl. unfold read_priors, read_ops, read_custom; simpl.
    rewrite !lookup_insert_ne by lia. done.
Qed.

(** What the loop of [get_models] does to the store, and what its facades
    are made of. *)
Lemma get_models_loop_store g (self : BMSRegressor) trees :
  forall idx h r h',
  get_models_loop g self idx trees h = (r, h') ->
  next_loc h <= next_loc h'
  /\ (forall l, l < next_loc h ->
        read_priors h' l = read_priors h l
        /\ read_ops h' l = read_ops h l
        /\ read_custom h' l = read_custom h l)
  /\ match r with
     | Ok ms =>
         forall m, m ∈ ms ->
           (ts m = TEMPERATURES /\ epochs m = 1500 /\ prior_par m = PRIORS g
            /\ X_ m = None /\ y_ m = None /\ models_ m = [Tree_new])
           /\ next_loc h <= ops m < next_loc h'
           /\ next_loc h <= custom_ops m < next_loc h'
           /\ read_ops h' (ops m) = default_ops
           /\ read_custom h' (custom_ops m) = ∅
     | Raise _ => True
     end.
Proof.
  induction trees as [|tree trees IH]; intros idx h r h'; simpl.
  - unfold st_ret. intros [= <- <-]. split; [done|]. split; [done|].
    intros m Hm. by apply elem_of_nil in Hm.
  - unfold st_bind at 1. unfold new_default_estimator at 1.
    pose proof (init_tables g None None None h) as Hinit.
    cbv zeta in Hinit.
    destruct (BMSRegressor_init g None None None h) as [b h1] eqn:Hb.
    cbn [fst snd] in Hinit. destruct Hinit as [(Hpp & Ho & Hc & Hro & Hrc) Hfr].
    assert (Hb' : ts b = TEMPERATURES /\ epochs b = 1500 /\ X_ b = None
                  /\ y_ b = None /\ models_ b = [Tree_new]).
    { rewrite init_run in Hb. by injection Hb as <- _. }
    destruct Hb' as (Hbt & Hbe & HbX & Hby & Hbm).
    unfold st_bind at 1, st_lift at 1.
    destruct (list_get (ts self) idx) as [t|e].
    2:{ intros [= <- <-]. split; [lia|]. split; [exact Hfr|done]. }
    unfold st_bind at 1, st_lift at 1.
    destruct (fitted_columns self) as [vars|e].
    2:{ intros [= <- <-]. split; [lia|]. split; [exact Hfr|done]. }
    unfold st_bind at 1.
    destruct (get_models_loop g self (S idx) trees h1) as [[ms|e] h2] eqn:Hl;
      destruct (IH _ _ _ _ Hl) as (Hn & Hfr2 & Hms).
    + unfold st_ret. intros [= <- <-]. split; [lia|]. split.
      { intros l Hl1. destruct (Hfr2 l ltac:(lia)) as (-> & -> & ->).
        by apply Hfr. }
      intros m Hm. apply elem_of_cons in Hm as [->|Hm].
      * cbn. split; [by rewrite Hbt, Hbe, Hpp, HbX, Hby, Hbm|].
        split; [lia|]. split; [lia|].
        destruct (Hfr2 (ops b) ltac:(lia)) as (_ & -> & _).
        destruct (Hfr2 (custom_ops b) ltac:(lia)) as (_ & _ & ->). done.
      * destruct (Hms m Hm) as (? & ? & ? & ? & ?).
        split; [done|]. split; [lia|]. split; [lia|]. done.
    + intros [= <- <-]. split; [lia|]. split; [|done].
      intros l Hl1. destruct (Hfr2 l ltac:(lia)) as (-> & -> & ->).
      by apply Hfr.
Qed.

(** X15. Whatever its outcome, [get_models] leaves every table that
    existed as it was: the facades it builds get tables of their own. *)
Theorem get_models_touches_no_table (g : globals) (self : BMSRegressor) (h : heap) :
  let h' := snd (get_models g self h) in
  next_loc h <= next_loc h'
  /\ forall l, l < next_loc h ->
       read_priors h' l = read_priors h l
       /\ read_ops h' l = read_ops h l
       /\ read_custom h' l = read_custom h l.
Proof.
  cbv zeta. unfold get_models.
  destruct (get_models_loop g self 0 (models_ self) h) as [r h'] eqn:Hl.
  destruct (get_models_loop_store _ _ _ _ _ _ _ Hl) as (? & ? & _). done.
Qed.

(** X16. A facade returned by [get_models] is a default-built estimator
    but for its tree, temperature and names: it has the default ladder
    and budget and the prior table [PRIORS], not those of the estimator it
    comes from, an operator table with the default operators only and an
    empty custom-operator table, both at addresses not in use before the
    call, so none of the operators registered on that estimator, and no
    retained data. *)
Theorem get_models_facades_are_default_built (g : globals)
    (self : BMSRegressor) (h h' : heap) (ms : list BMSRegressor) (m : BMSRegressor) :
  get_models g self h = (Ok ms, h') ->
  m ∈ ms ->
  ts m = TEMPERATURES /\ epochs m = 1500 /\ prior_par m = PRIORS g
  /\ X_ m = None /\ y_ m = None /\ models_ m = [Tree_new]
  /\ next_loc h <= ops m
  /\ next_loc h <= custom_ops m
  /\ read_ops h' (ops m) = default_ops
  /\ read_custom h' (custom_ops m) = ∅.
Proof.
  intros Hg Hm. unfold get_models in Hg.
  destruct (get_models_loop_store _ _ _ _ _ _ _ Hg) as (_ & _ & Hms).
  destruct (Hms m Hm) as ((? & ? & ? & ? & ? & ?) & Ho & Hc & ? & ?).
  repeat split; try done; lia.
Qed.

End Facades.

Section FacadeUse.
Context `{E : Engine}.

(** X17. On an estimator that retains a frame, [get_models] succeeds
    exactly when the population is no longer than the temperature
    ladder, and then returns as many facades as there are trees; with
    more trees than temperatures it raises an index error. *)
Theorem get_models_needs_enough_temperatures (g : globals)
    (self : BMSRegressor) (Xf : DataFrame) (h : heap) :
  X_ self = Some Xf ->
  (length (models_ self) <= length (ts self) ->
     exists ms h', get_models g self h = (Ok ms, h')
                   /\ length ms = length (models_ self))
  /\ (length (ts self) < length (models_ self) ->
        fst (get_models g self h) = Raise IndexError).
Proof.
  intros HX. split; intros Hlen.
  - destruct (get_models_loop_Ok g self Xf (models_ self) 0 h HX
                ltac:(simpl; lia)) as (ms & h' & Hg & Hl & _).
    by exists ms, h'.
  - unfold get_models.
    apply (get_models_loop_IndexError g self Xf); [done|lia|simpl; lia].
Qed.

(** X18. A facade returned by [get_models] predicts as the estimator it
    comes from would with the facade's tree as best model and the
    retained frame's names; asked for models in turn, it fails with an
    attribute error, as it retains no frame. *)
Theorem get_models_facade_use (g : globals) (self : BMSRegressor)
    (h h' : heap) (ms : list BMSRegressor) (m : BMSRegressor) :
  get_models g self h = (Ok ms, h') ->
  m ∈ ms ->
  (forall X, predict m X
             = rbind (fitted_columns self) (fun vars =>
               predict (set_variables vars (set_model_ (model_ m) self)) X))
  /\ (forall h0, fst (get_models g m h0) = Raise AttributeError).
Proof.
  intros Hg Hm. split.
  - intros X. unfold get_models in Hg.
    rewrite (get_models_loop_names _ _ _ _ _ _ _ Hg m Hm). simpl.
    by rewrite !predict_run.
  - intros h0.
    destruct (get_models_loop_store _ _ _ _ _ _ _ Hg) as (_ & _ & Hms).
    destruct (Hms m Hm) as ((Hts & _ & _ & HX & _ & Hmod) & _).
    unfold get_models. rewrite Hmod. cbn [get_models_loop].
    unfold st_bind at 1. unfold new_default_estimator at 1.
    destruct (BMSRegressor_init g None None None h0) as [b h1].
    unfold st_bind at 1, st_lift at 1, list_get. rewrite Hts. cbn.
    unfold fitted_columns. by rewrite HX.
Qed.

End FacadeUse.

(** ** [repr] *)

Section ReprEdges.
Context `{E : Engine}.

Lemma repr_loop_KeyError vals decimals names : forall s,
  repr_loop vals decimals names s = Raise KeyError
  <-> exists n, n ∈ names /\ (vals !! "d0" ≫= fun d0 => d0 !! n) = None.
Proof.
  induction names as [|n names IH]; intros s; simpl.
  - split; [congruence|]. intros (n & Hn & _). by apply elem_of_nil in Hn.
  - unfold dict_get. destruct (vals !! "d0") as [d0|] eqn:Hd; simpl.
    + destruct (d0 !! n) as [v|] eqn:Hv; simpl.
      * rewrite IH. split.
        -- intros (m & Hm & Hnone). exists m. split; [by right|done].
        -- intros (m & Hm & Hnone). apply elem_of_cons in Hm as [->|Hm].
           ++ simpl in Hnone. congruence.
           ++ eauto.
      * split; [|done]. intros _. exists n. split; [left|done].
    + split; [|done]. intros _. exists n. split; [left|done].
Qed.


Lemma replace_chars_absent old new s :
  contains_chars old s = false -> replace_chars old new s = s.
Proof.
  destruct old as [|c old]; [by destruct s|]. cbn [replace_chars].
  induction s as [|a s IH]; [done|].
  cbn [contains_chars replace_scan]. intros H.
  apply orb_false_iff in H as [-> H]. by rewrite IH.
Qed.

Lemma str_replace_absent s old new :
  str_contains s old = false -> str_replace s old new = s.
Proof.
  intros H. apply chars_inj. rewrite chars_str_replace.
  by apply replace_chars_absent.
Qed.

(** X20. If no name of the parameter list occurs in the rendering, and
    each has a value, [repr] returns the rendering as it is. *)
Theorem repr_unmentioned_parameters (self : BMSRegressor) (decimals : Z)
    (d0 : gmap string pyfloat) :
  Tree_par_values (model_ self) !! "d0" = Some d0 ->
  (forall n, n ∈ Tree_parameters (model_ self) ->
     is_Some (d0 !! n) /\ str_contains (Tree_repr (model_ self)) n = false) ->
  repr self decimals = Ok (Tree_repr (model_ self)).
Proof.
  intros Hd0. unfold repr.
  generalize (Tree_repr (model_ self)) as s.
  induction (Tree_parameters (model_ self)) as [|n names IH]; intros s Hn;
    [reflexivity|].
  simpl. unfold dict_get. rewrite Hd0. simpl.
  destruct (Hn n ltac:(left)) as [[v Hv] Hc]. rewrite Hv. simpl.
  rewrite str_replace_absent by done.
  apply IH. intros m Hm. apply Hn. by right.
Qed.

End ReprEdges.

(** ** The further properties on the small engine *)

Section FurtherRuns.

(** An estimator fitted earlier with eleven parameters, fitted again
    with two, ends as a fresh one fitted with two. *)
Lemma fit_discards_previous_state_witness :
  fit (demo_X 3 1) (demo_y 3) 2 None None None
      (fst (demo_fitted 11), snd (demo_state (Some [1%Q; 2%Q])))
  = (Ok tt, (fst (demo_fitted 2), snd (demo_fitted 2))).
Proof.
  apply (fit_discards_previous_state (demo_X 3 1) (demo_y 3) 2 None None None
           (fst (demo_state (Some [1%Q; 2%Q]))) (fst (demo_fitted 11)));
    vm_compute; reflexivity.
Defined.

(** Three rows against four targets. *)
Lemma fit_rejects_row_mismatch_witness :
  fit (demo_X 3 2) (demo_y 4) 1 None (Some [demo_f]) None
      (fst (demo_fitted 2), snd (demo_fitted 2))
  = (Raise ValidationError,
     (set_variables ["X0"; "X1"] (fst (demo_fitted 2)), snd (demo_fitted 2))).
Proof.
  apply (fit_rejects_row_mismatch (demo_X 3 2) (demo_y 4) 1 None (Some [demo_f])
           None (fst (demo_fitted 2)) (snd (demo_fitted 2)) ["X0"; "X1"]).
  - reflexivity.
  - vm_compute. lia.
Defined.

(** [sin] of arity 2, then [f], then [sin] of arity 1: the later [sin]
    counts, and [f] is not disturbed by it. *)
Lemma custom_ops_last_registration_wins_witness :
  let s := fst (demo_state None) in
  let h' := registered s ([demo_sin] ++ demo_f :: [Callable "sin" ["x"] 8])
              (snd (demo_state None)) in
  read_ops h' (ops s) !! cname demo_f = Some (length (cparams demo_f))
  /\ read_custom h' (custom_ops s) !! cname demo_f = Some demo_f
  /\ read_priors h' (prior_par s) !! ("Nopi_" +:+ cname demo_f) = Some (Fnum 1).
Proof.
  intros s.
  apply (custom_ops_last_registration_wins s [demo_sin] [Callable "sin" ["x"] 8]
           demo_f (snd (demo_state None))).
  intros op' Hop'. apply list_elem_of_singleton in Hop' as ->. discriminate.
Defined.

Lemma add_primitive_commutes_witness :
  let s := fst (demo_state None) in
  let h := snd (demo_state None) in
  add_primitive s demo_sin (add_primitive s demo_f h)
  = add_primitive s demo_f (add_primitive s demo_sin h).
Proof.
  intros s h. apply add_primitive_commutes. discriminate.
Defined.

(** With an empty ladder the small engine's run fails; [f] stays
    registered all the same. *)
Lemma fit_registrations_outlive_engine_failure_witness :
  let st := demo_state (Some []) in
  let s1 := set_variables ["X0"] (fst st) in
  let h2 := registered s1 [demo_f] (snd st) in
  let r := fit (demo_X 3 1) (demo_y 3) 1 None (Some [demo_f]) None
             (fst st, snd st) in
  fst r = Raise EngineFailure
  /\ snd (snd r) = h2
  /\ forall op, op ∈ default [] (Some [demo_f]) ->
       is_Some (read_custom h2 (custom_ops (fst st)) !! cname op).
Proof.
  intros st s1 h2 r. split; [vm_compute; reflexivity|].
  apply (fit_registrations_outlive_engine_failure (demo_X 3 1) (demo_y 3) 1 None
           (Some [demo_f]) None (fst st) (snd st) h2 ["X0"]
           (NDArray [3; 1] (repeat (Fnum 1) 3),
            NDArray [3] (repeat (Cfloat (Fnum 15)) 3))
           (MkDataFrame ["X0"] (NDArray [3; 1] (repeat (Fnum 1) 3))));
    vm_compute; reflexivity.
Defined.

Lemma fit_session_arguments_witness :
  let st := demo_state (Some [1%Q; 2%Q]) in
  let r := fit (demo_X 3 1) (demo_y 3) 1 (Some (RootCallable demo_sin))
             None None (fst st, snd st) in
  let s' := fst (snd r) in
  let h' := snd (snd r) in
  exists args p best,
    Parallel_build args = Some p
    /\ utils_run p (epochs (fst st)) = (pms s', Some best)
    /\ model_ s' = fst (fst best)
    /\ arg_Ts args = ts (fst st)
    /\ arg_variables args = variables s'
    /\ arg_parameters args = numbered "a" 1
    /\ Some (arg_x args) = X_ s'
    /\ Some (arg_y args) = y_ s'
    /\ arg_prior_par args = read_priors h' (prior_par (fst st))
    /\ arg_ops args = read_ops h' (ops (fst st))
    /\ arg_custom_ops args = read_custom h' (custom_ops (fst st))
    /\ arg_root args = Some (RootCallable demo_sin)
    /\ arg_random_state args = None
    /\ forall r0, Some (RootCallable demo_sin) = Some (RootCallable r0) ->
         arg_ops args !! cname r0 = Some (length (cparams r0))
         /\ arg_custom_ops args !! cname r0 = Some r0
         /\ arg_prior_par args !! ("Nopi_" +:+ cname r0) = Some (Fnum 1).
Proof.
  intros st r s' h'.
  apply (fit_session_arguments (demo_X 3 1) (demo_y 3) 1
           (Some (RootCallable demo_sin)) None None (fst st) s' (snd st) h').
  vm_compute. reflexivity.
Defined.

Lemma fit_unknown_string_root_witness :
  let st := demo_state None in
  fit (demo_X 3 1) (demo_y 3) 1 (Some (RootStr "cosh")) (Some [demo_f]) None
      (fst st, snd st)
  = (Raise AttributeError,
     (set_variables ["X0"] (fst st),
      registered (set_variables ["X0"] (fst st)) (default [] (Some [demo_f]))
        (snd st))).
Proof.
  intros st.
  apply (fit_unknown_string_root (demo_X 3 1) (demo_y 3) 1 "cosh" (Some [demo_f])
           None (fst st) (snd st) ["X0"]
           (NDArray [3; 1] (repeat (Fnum 1) 3),
            NDArray [3] (repeat (Cfloat (Fnum 15)) 3))
           (MkDataFrame ["X0"] (NDArray [3; 1] (repeat (Fnum 1) 3))));
    vm_compute; reflexivity.
Defined.

Lemma fit_array_names_distinct_witness :
  let s' := fst (snd (fit (demo_X 3 2) (demo_y 3) 2 None None None
                        (fst (demo_state None), snd (demo_state None)))) in
  NoDup (variables s')
  /\ NoDup (numbered "a" 2)
  /\ forall v, v ∈ variables s' -> v ∉ numbered "a" 2.
Proof.
  intros s'.
  apply (fit_array_names_distinct
           (NDArray [3; 2] (repeat (Cfloat (Fnum 1)) (3 * 2))) (demo_y 3) 2
           None None None (fst (demo_state None)) s' (snd (demo_state None))
           (snd (demo_state None))).
  vm_compute. reflexivity.
Defined.

Lemma predict_rejects_column_mismatch_witness :
  predict (fst (demo_fitted 2)) (demo_X 4 2) = Raise ShapeError.
Proof.
  apply (predict_rejects_column_mismatch (fst (demo_fitted 2)) (demo_X 4 2)
           (NDArray [4; 2] (repeat (Fnum 1) 8))).
  - vm_compute. reflexivity.
  - vm_compute. lia.
Defined.

Lemma predict_on_training_input_witness :
  let s' := fst (demo_fitted 2) in
  exists Xf,
    X_ s' = Some Xf
    /\ predict s' (demo_X 3 1)
       = rbind (engine_call (Tree_predict (model_ s') Xf)) (fun col =>
         Ok (expand_dims_1 col)).
Proof.
  intros s'.
  apply (predict_on_training_input (demo_X 3 1) (demo_y 3) 2 None None None
           (fst (demo_state (Some [1%Q; 2%Q]))) s'
           (snd (demo_state (Some [1%Q; 2%Q]))) (snd (demo_fitted 2))).
  vm_compute. reflexivity.
Defined.

(** After the refused two-column fit, the one-column input that worked
    before is turned away. *)
Lemma failed_fit_breaks_predict_witness :
  let st := demo_fitted 2 in
  let r := fit (demo_X 3 2) (demo_y 4) 1 None None None (fst st, snd st) in
  predict (fst (snd r)) (demo_X 4 1) = Raise ShapeError
  /\ fitted_columns (fst (snd r)) = fitted_columns (fst st).
Proof.
  intros st r.
  apply (failed_fit_breaks_predict (demo_X 3 2) (demo_y 4) 1 None None None
           (fst st) (fst (snd r)) (snd st) (snd (snd r)) ValidationError
           ["X0"; "X1"] (demo_X 4 1) (NDArray [4; 1] (repeat (Fnum 1) 4))).
  - vm_compute. reflexivity.
  - reflexivity.
  - vm_compute. lia.
  - vm_compute. reflexivity.
  - reflexivity.
Defined.

Lemma get_models_facades_are_default_built_witness :
  let self := fst (demo_fitted 2) in
  let h := add_primitive self demo_f (snd (demo_fitted 2)) in
  let r := get_models demo_globals self h in
  let m := default self (match fst r with Ok ms => ms !! 1 | Raise _ => None end) in
  ts m = TEMPERATURES /\ epochs m = 1500 /\ prior_par m = PRIORS demo_globals
  /\ X_ m = None /\ y_ m = None /\ models_ m = [Tree_new]
  /\ next_loc h <= ops m
  /\ next_loc h <= custom_ops m
  /\ read_ops (snd r) (ops m) = default_ops
  /\ read_custom (snd r) (custom_ops m) = ∅.
Proof.
  intros self h r m.
  apply (get_models_facades_are_default_built demo_globals self h (snd r)
           (match fst r with Ok ms => ms | Raise _ => [] end) m).
  - vm_compute. reflexivity.
  - apply list_elem_of_lookup. exists 1. vm_compute. reflexivity.
Defined.

Lemma get_models_needs_enough_temperatures_witness :
  let self := fst (demo_fitted 2) in
  (length (models_ self) <= length (ts self) ->
     exists ms h', get_models demo_globals self demo_heap = (Ok ms, h')
                   /\ length ms = length (models_ self))
  /\ (length (ts self) < length (models_ self) ->
        fst (get_models demo_globals self demo_heap) = Raise IndexError).
Proof.
  intros self.
  apply (get_models_needs_enough_temperatures demo_globals self
           (MkDataFrame ["X0"] (NDArray [3; 1] (repeat (Fnum 1) 3))) demo_heap).
  vm_compute. reflexivity.
Defined.

Lemma get_models_facade_use_witness :
  let self := fst (demo_fitted 2) in
  let r := get_models demo_globals self (snd (demo_fitted 2)) in
  let m := default self (match fst r with Ok ms => ms !! 0 | Raise _ => None end) in
  (forall X, predict m X
             = rbind (fitted_columns self) (fun vars =>
               predict (set_variables vars (set_model_ (model_ m) self)) X))
  /\ (forall h0, fst (get_models demo_globals m h0) = Raise AttributeError).
Proof.
  intros self r m.
  apply (get_models_facade_use demo_globals self (snd (demo_fitted 2)) (snd r)
           (match fst r with Ok ms => ms | Raise _ => [] end) m).
  - vm_compute. reflexivity.
  - apply list_elem_of_lookup. exists 0. vm_compute. reflexivity.
Defined.

(** A tree that renders as [x], with one parameter it does not mention. *)
Lemma repr_unmentioned_parameters_witness :
  let t : @Tree demo_engine :=
    DemoTree [Text "x"] ["_a0_"] (<["_a0_" := Fnum 1]> ∅) in
  repr (set_model_ t (fst (demo_fitted 2))) 2 = Ok "x".
Proof.
  intros t.
  apply (repr_unmentioned_parameters (set_model_ t (fst (demo_fitted 2))) 2
           (<["_a0_" := Fnum 1]> ∅)).
  - reflexivity.
  - intros n Hn. apply list_elem_of_singleton in Hn as ->.
    split; [by exists (Fnum 1)|reflexivity].
Defined.

End FurtherRuns.

(** ** More on registration and on what [fit] stores *)

Section Again.
Context `{E : Engine}.

Lemma fold_left_insert_union {V} (kvs : list (string * V)) (d : gmap string V) :
  fold_left (fun m kv => <[kv.1 := kv.2]> m) kvs d
  = list_to_map (reverse kvs) ∪ d.
Proof.
  revert d. induction kvs as [|[k v] kvs IH] using rev_ind; intros d.
  - simpl. by rewrite (left_id_L ∅ (∪)).
  - rewrite fold_left_app, reverse_app. simpl.
    rewrite IH. by rewrite insert_union_l.
Qed.

Lemma registered_ops_table (s : BMSRegressor) l : forall h,
  read_ops (registered s l h) (ops s)
  = fold_left (fun m kv => <[kv.1 := kv.2]> m)
      (map (fun op => (cname op, length (cparams op))) l) (read_ops h (ops s)).
Proof.
  induction l as [|op l IH]; intros h; [done|].
  change (registered s (op :: l) h) with (registered s l (add_primitive s op h)).
  by rewrite IH, add_primitive_ops.
Qed.

Lemma registered_custom_table (s : BMSRegressor) l : forall h,
  read_custom (registered s l h) (custom_ops s)
  = fold_left (fun m kv => <[kv.1 := kv.2]> m)
      (map (fun op => (cname op, op)) l) (read_custom h (custom_ops s)).
Proof.
  induction l as [|op l IH]; intros h; [done|].
  change (registered s (op :: l) h) with (registered s l (add_primitive s op h)).
  by rewrite IH, add_primitive_custom.
Qed.

Lemma registered_priors_table (s : BMSRegressor) l : forall h,
  read_priors (registered s l h) (prior_par s)
  = fold_left (fun m kv => <[kv.1 := kv.2]> m)
      (map (fun op => ("Nopi_" +:+ cname op, Fnum 1)) l)
      (read_priors h (prior_par s)).
Proof.
  induction l as [|op l IH]; intros h; [done|].
  change (registered s (op :: l) h) with (registered s l (add_primitive s op h)).
  by rewrite IH, add_primitive_priors.
Qed.

Lemma union_twice {V} (m d : gmap string V) : m ∪ (m ∪ d) = m ∪ d.
Proof. by rewrite (assoc_L (∪)), (idemp_L (∪)). Qed.

(** X21. Registering a list of operators a second time, as a second [fit]
    with the same custom operators does, leaves the three tables as they
    were after the first time. *)
Theorem registering_again_changes_nothing (s : BMSRegressor)
    (l : list callable) (h : heap) :
  let h1 := registered s l h in
  let h2 := registered s l h1 in
  read_ops h2 (ops s) = read_ops h1 (ops s)
  /\ read_custom h2 (custom_ops s) = read_custom h1 (custom_ops s)
  /\ read_priors h2 (prior_par s) = read_priors h1 (prior_par s).
Proof.
  cbv zeta.
  rewrite !registered_ops_table, !registered_custom_table,
    !registered_priors_table, !fold_left_insert_union.
  by rewrite !union_twice.
Qed.

(** X22. What a successful [fit] stores is what the run returned: the
    session was run for the estimator's number of epochs, the best tree,
    its loss and the trajectory are the run's, the population is read
    off the session as the run left it, and [present_results] and
    [latex] then work on exactly these. *)
Theorem fit_stores_the_run X y k root cops rs
    (s s' : BMSRegressor) (h h' : heap) :
  fit X y k root cops rs (s, h) = (Ok tt, (s', h')) ->
  exists p best,
    utils_run p (epochs s) = (pms s', Some best)
    /\ model_ s' = fst (fst best)
    /\ loss_ s' = snd (fst best)
    /\ cache_ s' = snd best
    /\ models_ s' = Parallel_trees (pms s')
    /\ present_results s'
       = engine_call (utils_present_results (fst (fst best)) (snd (fst best))
                        (snd best))
    /\ latex s' = Ok (Tree_latex (fst (fst best))).
Proof.
  rewrite fit_run.
  destruct (resolve_variables X) as [vars|]; [|congruence]. cbv zeta.
  destruct (check_X_y X y) as [Xy|]; [|congruence].
  destruct (pd_DataFrame _ _) as [Xf|]; [|congruence].
  destruct (root_registered _ _ _) as [h2|]; [|congruence].
  destruct (Parallel_build _) as [p|]; [|congruence].
  destruct (utils_run p _) as [p' [best|]] eqn:Hrun; [|congruence].
  intros [= <- <-]. exists p, best. simpl in Hrun. by rewrite Hrun.
Qed.

End Again.

Section AgainRuns.

Lemma fit_stores_the_run_witness :
  let s' := fst (demo_fitted 2) in
  exists p best,
    utils_run p (epochs (fst (demo_state (Some [1%Q; 2%Q]))))
      = (pms s', Some best)
    /\ model_ s' = fst (fst best)
    /\ loss_ s' = snd (fst best)
    /\ cache_ s' = snd best
    /\ models_ s' = Parallel_trees (pms s')
    /\ present_results s'
       = engine_call (utils_present_results (fst (fst best)) (snd (fst best))
                        (snd best))
    /\ latex s' = Ok (Tree_latex (fst (fst best))).
Proof.
  intros s'.
  apply (fit_stores_the_run (demo_X 3 1) (demo_y 3) 2 None None None
           (fst (demo_state (Some [1%Q; 2%Q]))) s'
           (snd (demo_state (Some [1%Q; 2%Q]))) (snd (demo_fitted 2))).
  vm_compute. reflexivity.
Defined.

End AgainRuns.
